(** * Signal arbitration engine of the smart-traffic junction controller

    A shallow embedding of [src/junction/junction_controller.py]
    (class [JunctionController]) and the properties stated about it,
    followed by the parts of [src/ui/dashboard.py],
    [src/detection/vehicle_detector.py], [src/video/video_manager.py] and
    [src/main.py] that compute values, with OpenCV and the detection model
    as interfaces.

    Conventions of the embedding:
    - Python [int] values are [Z];
    - Python [float] values (smoothed counts, [ALPHA], clock readings) are
      exact rationals [Q], compared with [Qle_bool]/[Qeq_bool]: finite
      values, operations without rounding.  Where rounding decides a
      property, the smoothing is stated a second time with every operation
      rounded ([Rounded]) and evaluated in binary64 ([Binary64],
      [Binary64Drift]); overflow to an infinity is outside the embedding;
    - a Python [dict] is an association list in insertion order (the order
      is observable: [list(d.keys())], [list(d.values())], [sorted(d.items())]);
    - a call that can raise returns an [outcome], which keeps the object as
      it is at the moment of the raise (the loop of [update_counts] mutates
      the object key by key);
    - [time.time()] is an explicit argument, one per read of the clock. *)

From Stdlib Require Import ZArith QArith Qround Lqa Lia List String Bool.
From Stdlib Require PrimFloat.
Import ListNotations.

Local Open Scope Q_scope.

(** ** Python values *)

Module Py.

(** Exceptions the controller can raise. *)
Inductive exn : Type :=
| KeyError (key : string)
| ValueError.

(** [d[k]] on a dict; [None] stands for [KeyError]. *)
Fixpoint getitem {V : Type} (d : list (string * V)) (k : string) : option V :=
  match d with
  | [] => None
  | (k', v) :: d' => if String.eqb k k' then Some v else getitem d' k
  end.

(** [d[k] = v] for a key that is present: the slot keeps its position. *)
Fixpoint setitem {V : Type} (d : list (string * V)) (k : string) (v : V)
  : list (string * V) :=
  match d with
  | [] => []
  | (k', v') :: d' =>
      if String.eqb k k' then (k', v) :: d' else (k', v') :: setitem d' k v
  end.

Definition keys {V : Type} (d : list (string * V)) : list string := map fst d.
Definition values {V : Type} (d : list (string * V)) : list V := map snd d.

(** [int(x)] on a float: truncation toward zero. *)
Definition int (x : Q) : Z := Z.quot (Qnum x) (Zpos (Qden x)).

(** [max(l)] on a non-empty list, written as CPython evaluates it: the
    running maximum is replaced only by a strictly greater item. *)
Fixpoint max_from (m : Q) (l : list Q) : Q :=
  match l with
  | [] => m
  | x :: l' => max_from (if Qle_bool x m then m else x) l'
  end.

Definition max (l : list Q) : option Q :=
  match l with
  | [] => None
  | x :: l' => Some (max_from x l')
  end.

(** [l.index(v)]: position of the first item equal to [v]. *)
Fixpoint index (l : list Q) (v : Q) : option nat :=
  match l with
  | [] => None
  | x :: l' =>
      if Qeq_bool x v then Some O
      else match index l' v with
           | Some i => Some (S i)
           | None => None
           end
  end.

(** [sorted(items, key=lambda x: x[1], reverse=True)]: a stable sort by
    descending value; items of equal value keep their original order. *)
Fixpoint insert_desc (x : string * Q) (l : list (string * Q))
  : list (string * Q) :=
  match l with
  | [] => [x]
  | y :: l' =>
      if Qle_bool (snd y) (snd x) then x :: y :: l'
      else y :: insert_desc x l'
  end.

Fixpoint sorted_desc (l : list (string * Q)) : list (string * Q) :=
  match l with
  | [] => []
  | x :: l' => insert_desc x (sorted_desc l')
  end.

End Py.

(** ** The controller object *)

Record JunctionController : Type := mkController {
  MIN_GREEN : Z;
  MAX_GREEN : Z;
  ALPHA : Q;
  MAX_CONSECUTIVE : Z;
  current_green : option string;
  green_end_time : Q;
  last_green : option string;
  consecutive_count : Z;
  current_duration : Z;
  smooth_counts : list (string * Q)
}.

(** The keys of [smooth_counts], in the order [__init__] inserts them. *)
Definition DIRECTIONS : list string :=
  ["NORTH"; "EAST"; "SOUTH"; "WEST"]%string.

(** [JunctionController.__init__]: stores the parameters as given. *)
Definition init (min_green max_green : Z) (smoothing_alpha : Q)
  (max_consecutive : Z) : JunctionController :=
  {| MIN_GREEN := min_green;
     MAX_GREEN := max_green;
     ALPHA := smoothing_alpha;
     MAX_CONSECUTIVE := max_consecutive;
     current_green := None;
     green_end_time := 0;
     last_green := None;
     consecutive_count := 0%Z;
     current_duration := 0%Z;
     smooth_counts :=
       [("NORTH", 0); ("EAST", 0); ("SOUTH", 0); ("WEST", 0)]%string |}.

(** The defaults of the constructor, which are also those of [config.py]. *)
Definition MIN_GREEN_TIME : Z := 15.
Definition MAX_GREEN_TIME : Z := 90.
Definition SMOOTHING_ALPHA : Q := 7 # 10.
Definition MAX_CONSECUTIVE_SAME_DIRECTION : Z := 2.

Definition default_controller : JunctionController :=
  init MIN_GREEN_TIME MAX_GREEN_TIME SMOOTHING_ALPHA
       MAX_CONSECUTIVE_SAME_DIRECTION.

(** What a call [JunctionController(...)] yields.  [__init__] contains no
    check and no [raise]; [ConfigurationError] is the failure that the
    specification speaks of. *)
Inductive construction : Type :=
| Constructed (c : JunctionController)
| ConfigurationError.

Definition construct (min_green max_green : Z) (smoothing_alpha : Q)
  (max_consecutive : Z) : construction :=
  Constructed (init min_green max_green smoothing_alpha max_consecutive).

(** What a call leaves behind: the object after a normal return, or the
    exception together with the object as mutated so far. *)
Inductive outcome (A : Type) : Type :=
| Returned (c : JunctionController) (a : A)
| Raised (c : JunctionController) (e : Py.exn).
Arguments Returned {A} c a.
Arguments Raised {A} c e.

Definition object_after {A : Type} (o : outcome A) : JunctionController :=
  match o with
  | Returned c _ => c
  | Raised c _ => c
  end.

Definition with_smooth_counts (c : JunctionController)
  (sc : list (string * Q)) : JunctionController :=
  {| MIN_GREEN := MIN_GREEN c;
     MAX_GREEN := MAX_GREEN c;
     ALPHA := ALPHA c;
     MAX_CONSECUTIVE := MAX_CONSECUTIVE c;
     current_green := current_green c;
     green_end_time := green_end_time c;
     last_green := last_green c;
     consecutive_count := consecutive_count c;
     current_duration := current_duration c;
     smooth_counts := sc |}.

(** ** [update_counts] *)

(** The right-hand side of the assignment in the loop body, evaluated
    without rounding; [Rounded.ema] is the same expression with every
    operation rounded. *)
Definition ema (alpha old : Q) (raw : Z) : Q :=
  alpha * old + (1 - alpha) * inject_Z raw.

(** The loop [for direction in raw_counts] over the items still to visit,
    on the dict [sc]; reading [smooth_counts[direction]] for an unknown
    key raises and leaves the earlier assignments in place. *)
Fixpoint update_loop (alpha : Q) (sc : list (string * Q))
  (todo : list (string * Z)) : list (string * Q) * option Py.exn :=
  match todo with
  | [] => (sc, None)
  | (direction, n) :: todo' =>
      match Py.getitem sc direction with
      | None => (sc, Some (Py.KeyError direction))
      | Some old =>
          update_loop alpha (Py.setitem sc direction (ema alpha old n)) todo'
      end
  end.

Definition update_counts (c : JunctionController)
  (raw_counts : list (string * Z)) : outcome unit :=
  match update_loop (ALPHA c) (smooth_counts c) raw_counts with
  | (sc, None) => Returned (with_smooth_counts c sc) tt
  | (sc, Some e) => Raised (with_smooth_counts c sc) e
  end.

(** ** [decide_signal] *)

(** [d == self.last_green], where [last_green] may still be [None]. *)
Definition eq_last (last : option string) (d : string) : bool :=
  match last with
  | Some l => String.eqb d l
  | None => false
  end.

(** [directions[values.index(max(values))]]; [None] when [max] is given
    an empty list. *)
Definition candidate (sc : list (string * Q)) : option string :=
  match Py.max (Py.values sc) with
  | None => None
  | Some m =>
      match Py.index (Py.values sc) m with
      | None => None
      | Some max_index => nth_error (Py.keys sc) max_index
      end
  end.

(** The body of [if self.consecutive_count > self.MAX_CONSECUTIVE]: the
    first item of the sorted dict whose key differs from [last_green]
    replaces [selected]; without such an item [selected] stays. *)
Definition reselect (sc : list (string * Q)) (last : option string)
  (selected : string) : string :=
  match find (fun it => negb (eq_last last (fst it))) (Py.sorted_desc sc) with
  | Some (d, _) => d
  | None => selected
  end.

(** [max(MIN_GREEN, min(int(x) * 2, MAX_GREEN))]. *)
Definition green_time (min_green max_green : Z) (x : Q) : Z :=
  Z.max min_green (Z.min (Py.int x * 2) max_green).

(** The block guarded by
    [self.current_green is None or current_time >= self.green_end_time]. *)
Definition select_phase (c : JunctionController) : outcome unit :=
  match candidate (smooth_counts c) with
  | None => Raised c Py.ValueError
  | Some argmax =>
      let count :=
        if eq_last (last_green c) argmax
        then (consecutive_count c + 1)%Z else 1%Z in
      let over := (MAX_CONSECUTIVE c <? count)%Z in
      let selected :=
        if over then reselect (smooth_counts c) (last_green c) argmax
        else argmax in
      let count' := if over then 1%Z else count in
      match Py.getitem (smooth_counts c) selected with
      | None =>
          Raised {| MIN_GREEN := MIN_GREEN c;
                    MAX_GREEN := MAX_GREEN c;
                    ALPHA := ALPHA c;
                    MAX_CONSECUTIVE := MAX_CONSECUTIVE c;
                    current_green := Some selected;
                    green_end_time := green_end_time c;
                    last_green := Some selected;
                    consecutive_count := count';
                    current_duration := current_duration c;
                    smooth_counts := smooth_counts c |}
                 (Py.KeyError selected)
      | Some x =>
          Returned {| MIN_GREEN := MIN_GREEN c;
                      MAX_GREEN := MAX_GREEN c;
                      ALPHA := ALPHA c;
                      MAX_CONSECUTIVE := MAX_CONSECUTIVE c;
                      current_green := Some selected;
                      green_end_time := green_end_time c;
                      last_green := Some selected;
                      consecutive_count := count';
                      current_duration :=
                        green_time (MIN_GREEN c) (MAX_GREEN c) x;
                      smooth_counts := smooth_counts c |}
                   tt
      end
  end.

(** The guard of the selection block, at clock reading [current_time]. *)
Definition phase_over (c : JunctionController) (current_time : Q) : bool :=
  match current_green c with
  | None => true
  | Some _ => Qle_bool (green_end_time c) current_time
  end.

(** The last three statements: [int(self.green_end_time - time.time())],
    replaced by 0 when negative. *)
Definition remaining_at (c : JunctionController) (t : Q) : Z :=
  let remaining := Py.int (green_end_time c - t) in
  if (remaining <? 0)%Z then 0%Z else remaining.

(** [decide_signal], with the two reads of the clock as arguments:
    [current_time] at entry and [return_time] when the remaining time is
    computed. *)
Definition decide_signal (c : JunctionController)
  (current_time return_time : Q) : outcome (option string * Z) :=
  if phase_over c current_time then
    match select_phase c with
    | Raised c' e => Raised c' e
    | Returned c' _ =>
        Returned c' (current_green c', remaining_at c' return_time)
    end
  else Returned c (current_green c, remaining_at c return_time).

(** ** Runs of the control loop *)

(** One call on the object. *)
Inductive call : Type :=
| UpdateCounts (raw_counts : list (string * Z))
| DecideSignal (current_time return_time : Q).

Definition step (c : JunctionController) (k : call) : JunctionController :=
  match k with
  | UpdateCounts raw => object_after (update_counts c raw)
  | DecideSignal t t' => object_after (decide_signal c t t')
  end.

(** The object after a sequence of calls, whatever each call returned or
    raised; the caller may catch and go on. *)
Definition run (c : JunctionController) (ks : list call) : JunctionController :=
  fold_left step ks c.

(** The directions chosen by the selection block along a sequence of
    calls, oldest first; a [decide_signal] that does not enter the block,
    or that raises, adds nothing. *)
Fixpoint selections (c : JunctionController) (ks : list call) : list string :=
  match ks with
  | [] => []
  | k :: ks' =>
      let here :=
        match k with
        | UpdateCounts _ => []
        | DecideSignal t t' =>
            if phase_over c t then
              match decide_signal c t t' with
              | Returned _ (Some d, _) => [d]
              | _ => []
              end
            else []
        end in
      here ++ selections (step c k) ks'
  end.

(** Scenario A of the specification, on the object built with defaults. *)
Definition scenario_A_counts : list (string * Z) :=
  [("NORTH", 12); ("EAST", 3); ("SOUTH", 1); ("WEST", 2)]%string%Z.

Definition scenario_A : JunctionController :=
  object_after (update_counts default_controller scenario_A_counts).

(** ** Vocabulary of the stated properties *)

(** The greater of two rationals. *)
Definition qmax (a b : Q) : Q := if Qle_bool a b then b else a.

(** The greatest of [m] and the raw counts given for [d] in one dict. *)
Fixpoint raw_max (d : string) (raw : list (string * Z)) (m : Q) : Q :=
  match raw with
  | [] => m
  | (k, n) :: raw' =>
      raw_max d raw' (if String.eqb k d then qmax m (inject_Z n) else m)
  end.

(** The greatest of [m] and every raw count observed for [d] along a
    sequence of calls. *)
Fixpoint observed_max (d : string) (ks : list call) (m : Q) : Q :=
  match ks with
  | [] => m
  | UpdateCounts raw :: ks' => observed_max d ks' (raw_max d raw m)
  | DecideSignal _ _ :: ks' => observed_max d ks' m
  end.

(** Clamping as the specification words it: values below the interval go
    to its lower end, values above to its upper end. *)
Definition clamp (v lo hi : Z) : Z :=
  if (v <? lo)%Z then lo else if (hi <? v)%Z then hi else v.

(** Number of items equal to [d] at the head of a list. *)
Fixpoint leading (d : string) (l : list string) : nat :=
  match l with
  | [] => O
  | x :: l' => if String.eqb x d then S (leading d l') else O
  end.

(** Length of the longest block of equal adjacent items. *)
Fixpoint longest_run (l : list string) : nat :=
  match l with
  | [] => O
  | x :: l' => Nat.max (S (leading x l')) (longest_run l')
  end.

(** Every item is followed only by items of smaller or equal value. *)
Inductive descending : list (string * Q) -> Prop :=
| descending_nil : descending []
| descending_cons x l :
    (forall y, In y l -> snd y <= snd x) -> descending l ->
    descending (x :: l).

(** ** Binary64 arithmetic, for the cross-check of scenario A *)

Module Binary64.

Import PrimFloat.

(** The float nearest to 0.7, the value of [SMOOTHING_ALPHA] in CPython. *)
Definition SMOOTHING_ALPHA : float := 0x1.6666666666666p-1%float.

(** The assignment of [update_counts], evaluated in binary64; [raw] is the
    raw count already converted to [float], as [*] does with an [int]
    operand. *)
Definition ema (alpha old raw : float) : float :=
  (alpha * old + (1 - alpha) * raw)%float.

(** The smoothed count after one update from 0. *)
Definition first_count (raw : float) : float := ema SMOOTHING_ALPHA 0%float raw.

(** [lo <= x < hi]. *)
Definition within (lo hi x : float) : bool :=
  (leb lo x && ltb x hi)%bool.

(** Scenario A: NORTH is the strict maximum and lies in [3, 4); EAST is
    the strict maximum of the other three and lies in [0, 1). *)
Definition scenario_A_order : bool :=
  let north := first_count 12%float in
  let east := first_count 3%float in
  let south := first_count 1%float in
  let west := first_count 2%float in
  (ltb east north && ltb south east && ltb west east && ltb south west
   && within 3 4 north && within 0 1 east)%bool.

End Binary64.

(** ** More of Python's dicts *)

Module PyDict.

(** [d[k] = v]: the slot of a present key is overwritten in place, a new
    key is appended. *)
Fixpoint assign {V : Type} (d : list (string * V)) (k : string) (v : V)
  : list (string * V) :=
  match d with
  | [] => [(k, v)]
  | (k', v') :: d' =>
      if String.eqb k k' then (k', v) :: d' else (k', v') :: assign d' k v
  end.

(** [d.get(k, default)]. *)
Definition get {V : Type} (d : list (string * V)) (k : string) (default : V)
  : V :=
  match Py.getitem d k with
  | Some v => v
  | None => default
  end.

End PyDict.

(** [a < b] on floats. *)
Definition Qlt_bool (a b : Q) : bool := negb (Qle_bool b a).

(** ** [config.py] *)

Module Config.

Definition VIDEO_PATHS : list (string * string) :=
  [("NORTH", "videos/north.mp4"); ("EAST", "videos/east.mp4");
   ("SOUTH", "videos/south.mp4"); ("WEST", "videos/west.mp4")]%string.

Definition VEHICLE_CLASSES : list Z := [2; 3; 5; 7]%Z.

Definition BAR_WIDTH : Z := 200.
Definition BAR_HEIGHT : Z := 20.
Definition BAR_OUTLINE_COLOR : Z * Z * Z := (80, 80, 80)%Z.
Definition BAR_OUTLINE_THICKNESS : Z := 2.
Definition BAR_COLOR_GREEN : Z * Z * Z := (0, 200, 0)%Z.
Definition BAR_COLOR_ORANGE : Z * Z * Z := (0, 140, 255)%Z.
Definition BAR_COLOR_RED : Z * Z * Z := (0, 0, 200)%Z.
Definition BAR_DENSITY_THRESHOLD_1 : Z := 10.
Definition BAR_DENSITY_THRESHOLD_2 : Z := 20.

Definition CONGESTION_LOW : Z := 10.
Definition CONGESTION_MEDIUM : Z := 20.
Definition CONGESTION_HIGH : Z := 30.

Definition BADGE_COLOR_LOW : Z * Z * Z := (0, 200, 0)%Z.
Definition BADGE_COLOR_MEDIUM : Z * Z * Z := (0, 140, 255)%Z.
Definition BADGE_COLOR_HIGH : Z * Z * Z := (0, 0, 200)%Z.
Definition BADGE_COLOR_CRITICAL : Z * Z * Z := (0, 0, 255)%Z.

End Config.

(** ** [ui/dashboard.py] *)

Module Dashboard.

(** A call of an OpenCV drawing primitive on the destination image; the
    font argument, always [FONT_HERSHEY_SIMPLEX], is left out. *)
Inductive draw : Type :=
| rectangle (pt1 pt2 : Z * Z) (color : Z * Z * Z) (thickness : Z)
| putText (text : string) (org : Z * Z) (fontScale : Q) (color : Z * Z * Z)
    (thickness : Z).

Definition get_congestion_level (value : Q) : string :=
  if Qlt_bool value (inject_Z Config.CONGESTION_LOW) then "LOW"
  else if Qlt_bool value (inject_Z Config.CONGESTION_MEDIUM) then "MEDIUM"
  else if Qlt_bool value (inject_Z Config.CONGESTION_HIGH) then "HIGH"
  else "CRITICAL".

(** [int(t * 2) % 2] in [draw_congestion_badge]. *)
Definition blink (t : Q) : Z := (Py.int (t * 2) mod 2)%Z.

(** The colour chosen by [draw_congestion_badge]; [t] is the reading of
    [time.time()], made only in the last branch. *)
Definition badge_color (level : string) (t : Q) : Z * Z * Z :=
  if String.eqb level "LOW" then Config.BADGE_COLOR_LOW
  else if String.eqb level "MEDIUM" then Config.BADGE_COLOR_MEDIUM
  else if String.eqb level "HIGH" then Config.BADGE_COLOR_HIGH
  else if (blink t =? 0)%Z then (100, 0, 0)%Z
  else Config.BADGE_COLOR_CRITICAL.

(** [draw_congestion_badge], as the list of drawing calls it makes. *)
Definition draw_congestion_badge (level : string) (position : Z * Z) (t : Q)
  : list draw :=
  let (x, y) := position in
  [rectangle (x, y - 15)%Z (x + 80, y + 5)%Z (badge_color level t) (-1);
   putText level (x + 3, y - 2)%Z (4 # 10) (255, 255, 255)%Z 1].

(** In [draw_density_bar]: the locals [filled] and [bar_color]. *)
Definition bar_filled (value max_value : Q) : Z :=
  if Qlt_bool 0 max_value
  then Py.int ((value / max_value) * inject_Z Config.BAR_WIDTH)
  else 0%Z.

Definition bar_color (value : Q) : Z * Z * Z :=
  if Qlt_bool value (inject_Z Config.BAR_DENSITY_THRESHOLD_1)
  then Config.BAR_COLOR_GREEN
  else if Qlt_bool value (inject_Z Config.BAR_DENSITY_THRESHOLD_2)
  then Config.BAR_COLOR_ORANGE
  else Config.BAR_COLOR_RED.

(** [draw_density_bar], as the list of drawing calls it makes. *)
Definition draw_density_bar (value max_value : Q) (start_x start_y : Z)
  : list draw :=
  [rectangle (start_x, start_y)
             (start_x + Config.BAR_WIDTH, start_y + Config.BAR_HEIGHT)%Z
             Config.BAR_OUTLINE_COLOR Config.BAR_OUTLINE_THICKNESS;
   rectangle (start_x, start_y)
             (start_x + bar_filled value max_value,
              start_y + Config.BAR_HEIGHT)%Z
             (bar_color value) (-1)].

(** In [create_dashboard]: the local [system_mode], computed from
    [max(vehicle_counts.values()) if vehicle_counts else 0]. *)
Definition max_count (vehicle_counts : list (string * Q)) : Q :=
  match Py.max (Py.values vehicle_counts) with
  | Some m => m
  | None => 0
  end.

Definition system_mode (vehicle_counts : list (string * Q)) : string :=
  if Qle_bool (inject_Z Config.CONGESTION_HIGH) (max_count vehicle_counts)
  then "EMERGENCY"
  else if Qle_bool (inject_Z Config.CONGESTION_MEDIUM)
                   (max_count vehicle_counts)
  then "HEAVY TRAFFIC"
  else "NORMAL".

(** In [create_dashboard]: the level passed to the badge of a direction,
    [get_congestion_level(vehicle_counts.get(direction, 0))]. *)
Definition badge_level (vehicle_counts : list (string * Q))
  (direction : string) : string :=
  get_congestion_level (PyDict.get vehicle_counts direction 0).

(** In [create_dashboard]: the local [bar_width] of the green timer,
    [int(ratio * width_v)] with
    [ratio = remaining_time / total_duration if total_duration > 0 else 0]. *)
Definition progress_bar_width (remaining_time total_duration width_v : Z) : Z :=
  let ratio :=
    if (0 <? total_duration)%Z
    then inject_Z remaining_time / inject_Z total_duration
    else 0 in
  Py.int (ratio * inject_Z width_v).

(** Severity order of the level names; any other name counts as critical,
    as in [draw_congestion_badge]. *)
Definition level_rank (level : string) : nat :=
  if String.eqb level "LOW" then 0
  else if String.eqb level "MEDIUM" then 1
  else if String.eqb level "HIGH" then 2
  else 3.

End Dashboard.

(** [alpha] to the power [n]. *)
Fixpoint Qpow (alpha : Q) (n : nat) : Q :=
  match n with
  | O => 1
  | S n' => alpha * Qpow alpha n'
  end.

(** ** The smoothing with rounded operations *)

Module Rounded.

(** The assignment of [update_counts] when each float operation returns
    its exact result rounded by [rnd]: the product by [ALPHA], the
    difference [1 - ALPHA], the conversion of the count to [float], the
    second product and the sum. *)
Definition ema (rnd : Q -> Q) (alpha old : Q) (raw : Z) : Q :=
  rnd (rnd (alpha * old) + rnd (rnd (1 - alpha) * rnd (inject_Z raw))).

(** [update_counts] and the runs of calls, with this assignment. *)
Fixpoint update_loop (rnd : Q -> Q) (alpha : Q) (sc : list (string * Q))
  (todo : list (string * Z)) : list (string * Q) * option Py.exn :=
  match todo with
  | [] => (sc, None)
  | (direction, n) :: todo' =>
      match Py.getitem sc direction with
      | None => (sc, Some (Py.KeyError direction))
      | Some old =>
          update_loop rnd alpha
            (Py.setitem sc direction (ema rnd alpha old n)) todo'
      end
  end.

Definition update_counts (rnd : Q -> Q) (c : JunctionController)
  (raw_counts : list (string * Z)) : outcome unit :=
  match update_loop rnd (ALPHA c) (smooth_counts c) raw_counts with
  | (sc, None) => Returned (with_smooth_counts c sc) tt
  | (sc, Some e) => Raised (with_smooth_counts c sc) e
  end.

Definition step (rnd : Q -> Q) (c : JunctionController) (k : call)
  : JunctionController :=
  match k with
  | UpdateCounts raw => object_after (update_counts rnd c raw)
  | DecideSignal t t' => object_after (decide_signal c t t')
  end.

Definition run (rnd : Q -> Q) (c : JunctionController) (ks : list call)
  : JunctionController :=
  fold_left (step rnd) ks c.

(** A rounding to the nearest multiple of 1/1024, halves upward. *)
Definition to_grid (x : Q) : Q :=
  inject_Z (Qfloor (x * 1024 + (1 # 2))) / 1024.

End Rounded.

(** ** Repeated smoothing in binary64 *)

Module Binary64Drift.

Import PrimFloat.

(** The float nearest to 0.2, as smoothing factor, and a raw count of 3. *)
Definition alpha : float := 0x1.999999999999ap-3%float.
Definition count : float := 3%float.

(** The smoothed count after [n] updates with this count, from the 0 of
    the constructor. *)
Fixpoint after (n : nat) : float :=
  match n with
  | O => 0%float
  | S n' => Binary64.ema alpha (after n') count
  end.

(** [0 <= alpha < 1]. *)
Definition factor_in_range : bool :=
  (leb 0 alpha && ltb alpha 1)%bool.

(** The smoothed count after [n] updates is within [0, max(0, 3)]. *)
Definition within_bound (n : nat) : bool :=
  (leb 0 (after n) && leb (after n) count)%bool.

End Binary64Drift.

(** ** [detection/vehicle_detector.py] *)

Module Detector.

(** A box of a detection result: [box.cls[0]], [box.conf[0]] and
    [box.xyxy[0]], as floats. *)
Record Box : Type := mkBox {
  cls : Q;
  conf : Q;
  xyxy : Q * Q * Q * Q
}.

Record Detection : Type := mkDetection {
  class_id : Z;
  class_name : string;
  confidence : Q;
  x1 : Z;
  y1 : Z;
  x2 : Z;
  y2 : Z
}.

(** The detection model as the code uses it: calling it on a frame gives
    the results, each with its boxes, and [names] maps a class id to its
    name. *)
Class YOLO (model frame : Type) : Type := {
  predict : model -> frame -> list (list Box);
  names : model -> Z -> string
}.

Record VehicleDetector (model : Type) : Type := mkDetector {
  detector_model : model;
  vehicle_classes : list Z
}.
Arguments mkDetector {model} _ _.
Arguments detector_model {model} _.
Arguments vehicle_classes {model} _.

(** [VehicleDetector.__init__] once the model is loaded. *)
Definition new_detector {model : Type} (m : model) : VehicleDetector model :=
  mkDetector m Config.VEHICLE_CLASSES.

(** The [Detection] built from a box whose class id is [c]. *)
Definition to_detection (name_of : Z -> string) (c : Z) (box : Box)
  : Detection :=
  let '(a1, b1, a2, b2) := xyxy box in
  mkDetection c (name_of c) (conf box)
              (Py.int a1) (Py.int b1) (Py.int a2) (Py.int b2).

(** [int(box.cls[0]) in self.vehicle_classes]. *)
Definition is_vehicle (classes : list Z) (box : Box) : bool :=
  existsb (Z.eqb (Py.int (cls box))) classes.

(** The body of [for box in boxes], on the running count and list. *)
Definition detect_box (name_of : Z -> string) (classes : list Z) (box : Box)
  (acc : Z * list Detection) : Z * list Detection :=
  if is_vehicle classes box then
    ((fst acc + 1)%Z,
     snd acc ++ [to_detection name_of (Py.int (cls box)) box])
  else acc.

Fixpoint detect_boxes (name_of : Z -> string) (classes : list Z)
  (boxes : list Box) (acc : Z * list Detection) : Z * list Detection :=
  match boxes with
  | [] => acc
  | box :: boxes' =>
      detect_boxes name_of classes boxes' (detect_box name_of classes box acc)
  end.

Fixpoint detect_results (name_of : Z -> string) (classes : list Z)
  (results : list (list Box)) (acc : Z * list Detection)
  : Z * list Detection :=
  match results with
  | [] => acc
  | result :: results' =>
      detect_results name_of classes results'
        (detect_boxes name_of classes result acc)
  end.

(** [VehicleDetector.detect]. *)
Definition detect {model frame : Type} `{YOLO model frame}
  (self : VehicleDetector model) (f : frame) : Z * list Detection :=
  detect_results (names (detector_model self)) (vehicle_classes self)
                 (predict (detector_model self) f) (0%Z, []).

End Detector.

(** ** [video/video_manager.py] *)

Module Video.

(** [cv2.VideoCapture] as the code uses it: the constructor on a path,
    [isOpened], [read] (the frame when [ret] is true, and the capture after
    the read), [set(cv2.CAP_PROP_POS_FRAMES, 0)] and [release]. *)
Class VideoCapture (capture frame : Type) : Type := {
  open : string -> capture;
  isOpened : capture -> bool;
  read : capture -> option frame * capture;
  rewind : capture -> capture;
  release_capture : capture -> capture
}.

Record VideoManager (capture : Type) : Type := mkManager {
  video_paths : list (string * string);
  captures : list (string * capture)
}.
Arguments mkManager {capture} _ _.
Arguments video_paths {capture} _.
Arguments captures {capture} _.

(** The loop of [_load_videos] over the items still to open; a capture
    that is not opened stops the loop with the path in the error. *)
Fixpoint load_loop {capture frame : Type} `{VideoCapture capture frame}
  (todo : list (string * string)) (caps : list (string * capture))
  : list (string * capture) * option string :=
  match todo with
  | [] => (caps, None)
  | (direction, video_path) :: todo' =>
      let cap := open video_path in
      if isOpened cap then load_loop todo' (PyDict.assign caps direction cap)
      else (caps, Some video_path)
  end.

(** What [VideoManager(video_paths)] yields: the object, or
    [FileNotFoundError] for the path that could not be opened, with the
    captures stored until then. *)
Inductive loaded (capture : Type) : Type :=
| Loaded (vm : VideoManager capture)
| FileNotFoundError (video_path : string) (vm : VideoManager capture).
Arguments Loaded {capture} _.
Arguments FileNotFoundError {capture} _ _.

(** [VideoManager.__init__] with [_load_videos]. *)
Definition new_manager {capture frame : Type} `{VideoCapture capture frame}
  (paths : list (string * string)) : loaded capture :=
  match load_loop paths [] with
  | (caps, None) => Loaded (mkManager paths caps)
  | (caps, Some p) => FileNotFoundError p (mkManager paths caps)
  end.

(** The body of the loop of [read_frames] for one capture: a failed read
    is followed by a rewind and a second read. *)
Definition read_or_rewind {capture frame : Type} `{VideoCapture capture frame}
  (cap : capture) : option frame * capture :=
  match read cap with
  | (Some f, cap1) => (Some f, cap1)
  | (None, cap1) => read (rewind cap1)
  end.

Fixpoint read_loop {capture frame : Type} `{VideoCapture capture frame}
  (caps : list (string * capture)) (frames : list (string * option frame))
  : list (string * capture) * list (string * option frame) :=
  match caps with
  | [] => ([], frames)
  | (direction, cap) :: caps' =>
      let (f, cap') := read_or_rewind cap in
      let (rest, frames') :=
        read_loop caps' (PyDict.assign frames direction f) in
      ((direction, cap') :: rest, frames')
  end.

(** [VideoManager.read_frames]: the frames, and the manager whose captures
    have advanced. *)
Definition read_frames {capture frame : Type} `{VideoCapture capture frame}
  (self : VideoManager capture)
  : list (string * option frame) * VideoManager capture :=
  let (caps, frames) := read_loop (captures self) [] in
  (frames, mkManager (video_paths self) caps).

(** [VideoManager.release]. *)
Definition release {capture frame : Type} `{VideoCapture capture frame}
  (self : VideoManager capture) : VideoManager capture :=
  mkManager (video_paths self)
            (map (fun it => (fst it, release_capture (snd it)))
                 (captures self)).

End Video.

(** ** [main.py] *)

Module Main.

(** [draw_detections] on a copy of the frame, as an operation on frames. *)
Class Annotator (frame : Type) : Type := {
  draw_detections : frame -> list Detector.Detection -> frame
}.

(** The loop of [process_frames] over the frames that were read, on the
    dicts [frames] and [raw_counts] and the counter [valid]. *)
Fixpoint process_loop {model frame : Type} `{Detector.YOLO model frame}
  `{Annotator frame} (detector : Detector.VehicleDetector model)
  (all_frames : list (string * option frame))
  (frames : list (string * option frame)) (raw_counts : list (string * Z))
  (valid : Z)
  : list (string * option frame) * list (string * Z) * Z :=
  match all_frames with
  | [] => (frames, raw_counts, valid)
  | (direction, None) :: rest =>
      process_loop detector rest
        (PyDict.assign frames direction None)
        (PyDict.assign raw_counts direction 0%Z) valid
  | (direction, Some f) :: rest =>
      let (vehicle_count, detections) := Detector.detect detector f in
      process_loop detector rest
        (PyDict.assign frames direction (Some (draw_detections f detections)))
        (PyDict.assign raw_counts direction vehicle_count) (valid + 1)%Z
  end.

(** [process_frames]; [start] and [finish] are the two readings of the
    clock around the loop. *)
Definition process_frames {model capture frame : Type}
  `{Detector.YOLO model frame} `{Video.VideoCapture capture frame}
  `{Annotator frame}
  (video_manager : Video.VideoManager capture)
  (detector : Detector.VehicleDetector model) (start finish : Q)
  : Video.VideoManager capture
    * (list (string * option frame) * list (string * Z) * Q) :=
  let (all_frames, vm) := Video.read_frames video_manager in
  let '(frames, raw_counts, valid) :=
    process_loop detector all_frames [] [] 0%Z in
  let elapsed := (finish - start) * 1000 in
  let detect_time_ms :=
    if (0 <? valid)%Z then elapsed / inject_Z valid else 0 in
  (vm, (frames, raw_counts, detect_time_ms)).

(** The readings of [time.time()] made during one iteration of the loop
    of [main], in the order of the calls. *)
Record clock : Type := mkClock {
  at_start : Q;
  at_finish : Q;
  at_now : Q;
  at_decide : Q;
  at_return : Q
}.

(** The components and the local [prev_time] of [main]. *)
Record state (model capture : Type) : Type := mkState {
  video_manager : Video.VideoManager capture;
  detector : Detector.VehicleDetector model;
  controller : JunctionController;
  prev_time : Q
}.
Arguments mkState {model capture} _ _ _ _.
Arguments video_manager {model capture} _.
Arguments detector {model capture} _.
Arguments controller {model capture} _.
Arguments prev_time {model capture} _.

(** The values handed to the dashboard in one iteration. *)
Record shown (frame : Type) : Type := mkShown {
  frames : list (string * option frame);
  current_green_shown : option string;
  remaining_time : Z;
  total_duration : Z;
  vehicle_counts : list (string * Q);
  fps : Q;
  detect_time : Q
}.
Arguments mkShown {frame} _ _ _ _ _ _ _.
Arguments frames {frame} _.
Arguments current_green_shown {frame} _.
Arguments remaining_time {frame} _.
Arguments total_duration {frame} _.
Arguments vehicle_counts {frame} _.
Arguments fps {frame} _.
Arguments detect_time {frame} _.

(** One iteration of [while True] up to the call of the dashboard: either
    the values to show and the next state, or the exception of a
    controller call with the state it leaves. *)
Inductive iterated (model capture frame : Type) : Type :=
| Shown (st : state model capture) (out : shown frame)
| Failed (st : state model capture) (e : Py.exn).
Arguments Shown {model capture frame} _ _.
Arguments Failed {model capture frame} _ _.

Definition iteration {model capture frame : Type}
  `{Detector.YOLO model frame} `{Video.VideoCapture capture frame}
  `{Annotator frame}
  (st : state model capture) (clk : clock) : iterated model capture frame :=
  let '(vm, (frames, raw_counts, detect_time)) :=
    process_frames (video_manager st) (detector st)
                   (at_start clk) (at_finish clk) in
  let now := at_now clk in
  let fps := if Qlt_bool (prev_time st) now
             then 1 / (now - prev_time st) else 0 in
  match update_counts (controller st) raw_counts with
  | Raised c e => Failed (mkState vm (detector st) c now) e
  | Returned c _ =>
      match decide_signal c (at_decide clk) (at_return clk) with
      | Raised c' e => Failed (mkState vm (detector st) c' now) e
      | Returned c' (current_green, remaining_time) =>
          Shown (mkState vm (detector st) c' now)
                (mkShown frames current_green remaining_time
                         (current_duration c') (smooth_counts c') fps
                         detect_time)
      end
  end.

(** Successive iterations, one per item of [clks]: the values shown, in
    order, the last state, and the exception that ended the loop, if
    any. *)
Fixpoint loop {model capture frame : Type}
  `{Detector.YOLO model frame} `{Video.VideoCapture capture frame}
  `{Annotator frame}
  (st : state model capture) (clks : list clock)
  : list (shown frame) * state model capture * option Py.exn :=
  match clks with
  | [] => ([], st, None)
  | clk :: clks' =>
      match iteration st clk with
      | Failed st' e => ([], st', Some e)
      | Shown st' out =>
          let '(outs, st'', e) := loop st' clks' in (out :: outs, st'', e)
      end
  end.

(** [initialize_components] for a model that loads; [t0] is the reading
    of the clock that initialises [prev_time]. *)
Definition initialize_components {model capture frame : Type}
  `{Video.VideoCapture capture frame} (m : model) (t0 : Q)
  : Video.loaded capture + state model capture :=
  match Video.new_manager Config.VIDEO_PATHS with
  | Video.FileNotFoundError p vm => inl (Video.FileNotFoundError p vm)
  | Video.Loaded vm =>
      inr (mkState vm (Detector.new_detector m) default_controller t0)
  end.

End Main.

(** ** What the loop of [main] keeps *)

(** The controller as [main] builds and drives it: the configuration of
    [config.py], the four directions, no negative smoothed count, an end
    time still at 0, and a green direction, once there is one, that is
    known and has a duration within the configured bounds. *)
Definition driven (c : JunctionController) : Prop :=
  Py.keys (smooth_counts c) = DIRECTIONS /\
  ALPHA c = SMOOTHING_ALPHA /\
  MIN_GREEN c = MIN_GREEN_TIME /\ MAX_GREEN c = MAX_GREEN_TIME /\
  green_end_time c = 0 /\
  (forall d x, Py.getitem (smooth_counts c) d = Some x -> 0 <= x) /\
  (forall d, current_green c = Some d ->
             In d DIRECTIONS /\
             (MIN_GREEN_TIME <= current_duration c <= MAX_GREEN_TIME)%Z).

(** What one iteration hands to the dashboard, as far as the values go. *)
Definition presentable {frame : Type} (out : Main.shown frame) : Prop :=
  Py.keys (Main.frames out) = DIRECTIONS /\
  Py.keys (Main.vehicle_counts out) = DIRECTIONS /\
  (forall d x, In (d, x) (Main.vehicle_counts out) -> 0 <= x) /\
  (exists d, Main.current_green_shown out = Some d /\ In d DIRECTIONS) /\
  (0 <= Main.remaining_time out)%Z /\
  (MIN_GREEN_TIME <= Main.total_duration out <= MAX_GREEN_TIME)%Z.

(** ** A finite clip, as an instance of the capture interface

    A clip holds its frames and the position of the next read; a path
    opens when it is one of the clip's files.  Frames are numbered. *)

Module Clip.

Record clip : Type := mkClip {
  opened : bool;
  content : list nat;
  position : nat
}.

Definition read (c : clip) : option nat * clip :=
  match nth_error (content c) (position c) with
  | Some f => (Some f, mkClip (opened c) (content c) (S (position c)))
  | None => (None, c)
  end.

Definition capture (files : list (string * list nat))
  : Video.VideoCapture clip nat :=
  {| Video.open := fun path =>
       match Py.getitem files path with
       | Some frames => mkClip true frames 0
       | None => mkClip false [] 0
       end;
     Video.isOpened := opened;
     Video.read := read;
     Video.rewind := fun c => mkClip (opened c) (content c) 0;
     Video.release_capture := fun c => mkClip false (content c) (position c) |}.

(** Four two-frame files under the paths of [config.VIDEO_PATHS]. *)
Definition files : list (string * list nat) :=
  [("videos/north.mp4", [10; 11]%nat);
   ("videos/east.mp4", [20; 21]%nat);
   ("videos/south.mp4", [30; 31]%nat);
   ("videos/west.mp4", [40; 41]%nat)]%string.

#[global] Instance videos : Video.VideoCapture clip nat := capture files.

(** A model that reports one car and one person in every frame. *)
#[global] Instance model : Detector.YOLO unit nat :=
  {| Detector.predict := fun _ _ =>
       [[Detector.mkBox 2 (9 # 10) (1, 2, 30, 40);
         Detector.mkBox 0 (8 # 10) (5, 6, 70, 80)]];
     Detector.names := fun _ c => if (c =? 2)%Z then "car"%string
                                  else "person"%string |}.

#[global] Instance annotator : Main.Annotator nat :=
  {| Main.draw_detections := fun f _ => f |}.

(** The manager that the constructor builds from these files, and the
    state in which [main] enters its loop. *)
Definition manager : Video.VideoManager clip :=
  Video.mkManager Config.VIDEO_PATHS
    (map (fun it => (fst it, Video.open (snd it))) Config.VIDEO_PATHS).

Definition start : Main.state unit clip :=
  Main.mkState manager (Detector.new_detector tt) default_controller 1000.

(** Clock readings of one iteration that begins at [t]. *)
Definition tick (t : Q) : Main.clock :=
  Main.mkClock t (t + (1 # 10)) (t + (1 # 10)) (t + (1 # 10)) (t + (1 # 10)).

End Clip.

(** ** Dicts *)

Section Dict.

Context {V : Type}.
Implicit Types (d : list (string * V)) (k : string) (v : V).

Lemma keys_setitem d k v : Py.keys (Py.setitem d k v) = Py.keys d.
Proof.
  induction d as [|[k' v'] d IH]; simpl; [reflexivity|].
  unfold Py.keys in *.
  destruct (String.eqb k k'); simpl; [reflexivity|]. now rewrite IH.
Qed.

Lemma getitem_setitem_same d k v :
  Py.getitem d k <> None -> Py.getitem (Py.setitem d k v) k = Some v.
Proof.
  induction d as [|[k' v'] d IH]; simpl; [congruence|].
  destruct (String.eqb k k') eqn:E; simpl; rewrite E; auto.
Qed.

Lemma getitem_setitem_other d k k' v :
  k' <> k -> Py.getitem (Py.setitem d k v) k' = Py.getitem d k'.
Proof.
  intros Hne. induction d as [|[k0 v0] d IH]; simpl; [reflexivity|].
  destruct (String.eqb k k0) eqn:E; simpl.
  - apply String.eqb_eq in E. subst k0.
    destruct (String.eqb k' k) eqn:E'; [|reflexivity].
    apply String.eqb_eq in E'. contradiction.
  - now rewrite IH.
Qed.

Lemma getitem_in_keys d k : In k (Py.keys d) <-> Py.getitem d k <> None.
Proof.
  induction d as [|[k' v'] d IH]; simpl; [tauto|].
  destruct (String.eqb k k') eqn:E.
  - apply String.eqb_eq in E. subst. split; [congruence|auto].
  - apply String.eqb_neq in E. rewrite <- IH. split; [|tauto].
    intros [H|H]; [congruence|assumption].
Qed.

Lemma getitem_in d k v : Py.getitem d k = Some v -> In (k, v) d.
Proof.
  induction d as [|[k' v'] d IH]; simpl; [discriminate|].
  destruct (String.eqb k k') eqn:E; intros H.
  - apply String.eqb_eq in E. left. congruence.
  - right. auto.
Qed.

Lemma in_getitem d k v :
  NoDup (Py.keys d) -> In (k, v) d -> Py.getitem d k = Some v.
Proof.
  induction d as [|[k' v'] d IH]; simpl; [tauto|].
  intros Hnd [H|H].
  - inversion H; subst. now rewrite String.eqb_refl.
  - inversion Hnd as [|? ? Hnotin Hnd']; subst.
    destruct (String.eqb k k') eqn:E.
    + apply String.eqb_eq in E. subst. exfalso. apply Hnotin.
      change k' with (fst (k', v)). now apply in_map.
    + auto.
Qed.

End Dict.

(** ** The smoothing loop *)

Lemma update_loop_keys alpha todo : forall sc,
  Py.keys (fst (update_loop alpha sc todo)) = Py.keys sc.
Proof.
  induction todo as [|[k n] todo IH]; intros sc; simpl; [reflexivity|].
  destruct (Py.getitem sc k); simpl; [|reflexivity].
  rewrite IH. apply keys_setitem.
Qed.

(** A key that the loop does not visit keeps its value, whether the loop
    finishes or raises. *)
Lemma update_loop_frame alpha d todo : forall sc,
  ~ In d (Py.keys todo) ->
  Py.getitem (fst (update_loop alpha sc todo)) d = Py.getitem sc d.
Proof.
  induction todo as [|[k n] todo IH]; intros sc Hd; simpl; [reflexivity|].
  simpl in Hd.
  destruct (Py.getitem sc k); simpl; [|reflexivity].
  rewrite IH by tauto. apply getitem_setitem_other. intros ->. tauto.
Qed.

(** When every visited key is known the loop finishes. *)
Lemma update_loop_returns alpha todo : forall sc,
  (forall k, In k (Py.keys todo) -> In k (Py.keys sc)) ->
  snd (update_loop alpha sc todo) = None.
Proof.
  induction todo as [|[k n] todo IH]; intros sc Hk; simpl; [reflexivity|].
  destruct (Py.getitem sc k) eqn:E.
  - apply IH. intros k' Hk'. rewrite keys_setitem. apply Hk. now right.
  - exfalso. assert (H : In k (Py.keys sc)) by (apply Hk; now left).
    apply getitem_in_keys in H. contradiction.
Qed.

(** A key visited exactly once receives one smoothing step. *)
Lemma update_loop_ema alpha d n todo : forall sc old,
  NoDup (Py.keys todo) ->
  (forall k, In k (Py.keys todo) -> In k (Py.keys sc)) ->
  Py.getitem todo d = Some n ->
  Py.getitem sc d = Some old ->
  Py.getitem (fst (update_loop alpha sc todo)) d = Some (ema alpha old n).
Proof.
  induction todo as [|[k m] todo IH]; intros sc old Hnd Hk Hn Hold;
    simpl in *; [discriminate|].
  inversion Hnd as [|? ? Hnotin Hnd']; subst.
  destruct (Py.getitem sc k) as [x|] eqn:E.
  2:{ exfalso. assert (H : In k (Py.keys sc)) by (apply Hk; now left).
      apply getitem_in_keys in H. contradiction. }
  destruct (String.eqb d k) eqn:Edk.
  - apply String.eqb_eq in Edk. subst k.
    injection Hn as ->. rewrite Hold in E. injection E as <-.
    rewrite update_loop_frame by assumption.
    apply getitem_setitem_same. congruence.
  - apply String.eqb_neq in Edk.
    apply IH; auto.
    + intros k' Hk'. rewrite keys_setitem. apply Hk. now right.
    + rewrite getitem_setitem_other by assumption. assumption.
Qed.

Lemma update_counts_object c raw_counts :
  object_after (update_counts c raw_counts) =
  with_smooth_counts c
    (fst (update_loop (ALPHA c) (smooth_counts c) raw_counts)).
Proof.
  unfold update_counts.
  destruct (update_loop (ALPHA c) (smooth_counts c) raw_counts) as [sc [e|]];
    reflexivity.
Qed.

(** C3. When [raw_counts] is a dict whose keys are exactly the known
    directions, one call of [update_counts] returns normally, keeps
    [ALPHA], and leaves every direction [d] with the smoothed count
    [ALPHA * old + (1 - ALPHA) * raw_counts[d]], where [old] is the value
    before the call.  The sign of the raw counts plays no role. *)
Theorem update_counts_smooths c raw_counts :
  NoDup (Py.keys raw_counts) ->
  (forall d, In d (Py.keys raw_counts) <-> In d (Py.keys (smooth_counts c))) ->
  exists c',
    update_counts c raw_counts = Returned c' tt /\
    ALPHA c' = ALPHA c /\
    forall d, In d (Py.keys (smooth_counts c)) ->
      exists old n,
        Py.getitem (smooth_counts c) d = Some old /\
        Py.getitem raw_counts d = Some n /\
        Py.getitem (smooth_counts c') d =
          Some (ALPHA c * old + (1 - ALPHA c) * inject_Z n).
Proof.
  intros Hnd Hkeys.
  assert (Hsub : forall k, In k (Py.keys raw_counts) ->
                           In k (Py.keys (smooth_counts c)))
    by (intros k; apply Hkeys).
  pose proof (update_loop_returns (ALPHA c) raw_counts (smooth_counts c) Hsub)
    as Hret.
  pose proof (update_counts_object c raw_counts) as Hobj.
  unfold update_counts in *.
  destruct (update_loop (ALPHA c) (smooth_counts c) raw_counts)
    as [sc oe] eqn:Eloop.
  simpl in Hret. subst oe. simpl in Hobj.
  eexists. split; [reflexivity|]. split; [reflexivity|].
  intros d Hd.
  destruct (Py.getitem (smooth_counts c) d) as [old|] eqn:Eold.
  2:{ apply getitem_in_keys in Hd. contradiction. }
  destruct (Py.getitem raw_counts d) as [n|] eqn:En.
  2:{ apply Hkeys, getitem_in_keys in Hd. contradiction. }
  exists old, n. repeat split. simpl.
  change sc with (fst (sc, @None Py.exn)). rewrite <- Eloop.
  now apply update_loop_ema.
Qed.

Lemma update_counts_smooths_witness :
  NoDup (Py.keys scenario_A_counts) /\
  (forall d, In d (Py.keys scenario_A_counts) <->
             In d (Py.keys (smooth_counts default_controller))) /\
  exists c',
    update_counts default_controller scenario_A_counts = Returned c' tt /\
    ALPHA c' = ALPHA default_controller /\
    forall d, In d (Py.keys (smooth_counts default_controller)) ->
      exists old n,
        Py.getitem (smooth_counts default_controller) d = Some old /\
        Py.getitem scenario_A_counts d = Some n /\
        Py.getitem (smooth_counts c') d =
          Some (ALPHA default_controller * old
                + (1 - ALPHA default_controller) * inject_Z n).
Proof.
  assert (Hnd : NoDup (Py.keys scenario_A_counts)).
  { simpl. repeat constructor; simpl; intuition discriminate. }
  assert (Hk : forall d, In d (Py.keys scenario_A_counts) <->
                         In d (Py.keys (smooth_counts default_controller))).
  { intros d. simpl. tauto. }
  split; [exact Hnd|]. split; [exact Hk|].
  exact (update_counts_smooths default_controller scenario_A_counts Hnd Hk).
Defined.

(** [update_counts] assigns to slots of [smooth_counts] only. *)
Lemma update_counts_fields c raw_counts :
  let c' := object_after (update_counts c raw_counts) in
  Py.keys (smooth_counts c') = Py.keys (smooth_counts c)
  /\ MIN_GREEN c' = MIN_GREEN c
  /\ MAX_GREEN c' = MAX_GREEN c
  /\ ALPHA c' = ALPHA c
  /\ MAX_CONSECUTIVE c' = MAX_CONSECUTIVE c
  /\ current_green c' = current_green c
  /\ green_end_time c' = green_end_time c
  /\ last_green c' = last_green c
  /\ consecutive_count c' = consecutive_count c
  /\ current_duration c' = current_duration c.
Proof.
  intros c'. subst c'. rewrite update_counts_object. simpl.
  split; [apply update_loop_keys|]. repeat split.
Qed.

(** C10. A call of [update_counts], whether it returns or raises, leaves
    unchanged the smoothed count of every direction that is not a key of
    [raw_counts], keeps the keys of [smooth_counts] and their order, and
    modifies no other field of the controller. *)
Theorem update_counts_frame c raw_counts :
  let c' := object_after (update_counts c raw_counts) in
  (forall d, ~ In d (Py.keys raw_counts) ->
             Py.getitem (smooth_counts c') d = Py.getitem (smooth_counts c) d)
  /\ Py.keys (smooth_counts c') = Py.keys (smooth_counts c)
  /\ MIN_GREEN c' = MIN_GREEN c
  /\ MAX_GREEN c' = MAX_GREEN c
  /\ ALPHA c' = ALPHA c
  /\ MAX_CONSECUTIVE c' = MAX_CONSECUTIVE c
  /\ current_green c' = current_green c
  /\ green_end_time c' = green_end_time c
  /\ last_green c' = last_green c
  /\ consecutive_count c' = consecutive_count c
  /\ current_duration c' = current_duration c.
Proof.
  intros c'. split; [|exact (update_counts_fields c raw_counts)].
  intros d Hd. subst c'. rewrite update_counts_object. simpl.
  now apply update_loop_frame.
Qed.

Lemma update_counts_frame_witness :
  let c := scenario_A in
  let c' := object_after (update_counts c [("NORTH"%string, 5%Z)]) in
  Py.getitem (smooth_counts c') "SOUTH" = Py.getitem (smooth_counts c) "SOUTH"
  /\ Py.keys (smooth_counts c') = DIRECTIONS
  /\ consecutive_count c' = consecutive_count c.
Proof.
  intros c c'.
  pose proof (update_counts_frame c [("NORTH"%string, 5%Z)]) as H.
  cbv zeta in H. fold c' in H.
  destruct H as (Hd & Hk & _ & _ & _ & _ & _ & _ & _ & Hc & _).
  split; [|split; [exact Hk | exact Hc]].
  apply Hd. simpl. intros [H|[]]. discriminate.
Defined.

(** ** Bounds on the smoothed counts *)

Lemma qmax_ge_l a b : a <= qmax a b.
Proof.
  unfold qmax. destruct (Qle_bool a b) eqn:E.
  - now apply Qle_bool_iff.
  - apply Qle_refl.
Qed.

Lemma qmax_ge_r a b : b <= qmax a b.
Proof.
  unfold qmax. destruct (Qle_bool a b) eqn:E.
  - apply Qle_refl.
  - apply Qlt_le_weak, Qnot_le_lt. intros H.
    apply Qle_bool_iff in H. congruence.
Qed.

Lemma raw_max_ge d raw : forall m, m <= raw_max d raw m.
Proof.
  induction raw as [|[k n] raw IH]; intros m; simpl; [apply Qle_refl|].
  destruct (String.eqb k d).
  - eapply Qle_trans; [apply qmax_ge_l | apply IH].
  - apply IH.
Qed.

Lemma observed_max_ge d ks : forall m, m <= observed_max d ks m.
Proof.
  induction ks as [|[raw|t t'] ks IH]; intros m; simpl.
  - apply Qle_refl.
  - eapply Qle_trans; [apply raw_max_ge | apply IH].
  - apply IH.
Qed.

(** One smoothing step is a convex combination of the old value and the
    raw count. *)
Lemma ema_bounds alpha x m n :
  0 <= alpha -> alpha < 1 -> 0 <= x -> x <= m -> (0 <= n)%Z ->
  0 <= ema alpha x n /\ ema alpha x n <= qmax m (inject_Z n).
Proof.
  intros Ha0 Ha1 Hx0 Hxm Hn.
  assert (Hq : 0 <= inject_Z n).
  { change 0 with (inject_Z 0). now rewrite <- Zle_Qle. }
  pose proof (qmax_ge_l m (inject_Z n)) as Hl.
  pose proof (qmax_ge_r m (inject_Z n)) as Hr.
  set (r := inject_Z n) in *. set (M := qmax m r) in *.
  unfold ema. fold r. split.
  - assert (0 <= alpha * x) by (apply Qmult_le_0_compat; assumption).
    assert (0 <= (1 - alpha) * r) by (apply Qmult_le_0_compat; lra).
    lra.
  - assert (H1 : alpha * x <= alpha * M).
    { rewrite (Qmult_comm alpha x), (Qmult_comm alpha M).
      apply Qmult_le_compat_r; lra. }
    assert (H2 : (1 - alpha) * r <= (1 - alpha) * M).
    { rewrite (Qmult_comm (1 - alpha) r), (Qmult_comm (1 - alpha) M).
      apply Qmult_le_compat_r; lra. }
    lra.
Qed.

Lemma update_loop_bound alpha d todo : forall sc x m,
  0 <= alpha -> alpha < 1 ->
  (forall k n, In (k, n) todo -> (0 <= n)%Z) ->
  Py.getitem sc d = Some x -> 0 <= x -> x <= m ->
  exists x',
    Py.getitem (fst (update_loop alpha sc todo)) d = Some x' /\
    0 <= x' /\ x' <= raw_max d todo m.
Proof.
  induction todo as [|[k n] todo IH]; intros sc x m Ha0 Ha1 Hraw Hx Hx0 Hxm;
    simpl.
  - exists x. auto.
  - assert (Hn : (0 <= n)%Z) by (apply (Hraw k); now left).
    assert (Hraw' : forall k' n', In (k', n') todo -> (0 <= n')%Z)
      by (intros k' n' H; apply (Hraw k'); now right).
    destruct (Py.getitem sc k) as [old|] eqn:E; simpl.
    + destruct (String.eqb k d) eqn:Ekd.
      * apply String.eqb_eq in Ekd. subst k.
        rewrite Hx in E. injection E as <-.
        destruct (ema_bounds alpha x m n Ha0 Ha1 Hx0 Hxm Hn) as [Hlo Hhi].
        apply IH with (x := ema alpha x n); auto.
        apply getitem_setitem_same. congruence.
      * apply String.eqb_neq in Ekd.
        apply IH with (x := x); auto.
        rewrite getitem_setitem_other by congruence. assumption.
    + exists x. split; [assumption|]. split; [assumption|].
      eapply Qle_trans; [exact Hxm|].
      destruct (String.eqb k d).
      * eapply Qle_trans; [apply qmax_ge_l | apply raw_max_ge].
      * apply raw_max_ge.
Qed.

(** [decide_signal] never assigns to [smooth_counts], [green_end_time] or
    the configuration. *)
Lemma select_phase_preserves c :
  let c' := object_after (select_phase c) in
  smooth_counts c' = smooth_counts c /\
  green_end_time c' = green_end_time c /\
  MIN_GREEN c' = MIN_GREEN c /\ MAX_GREEN c' = MAX_GREEN c /\
  ALPHA c' = ALPHA c /\ MAX_CONSECUTIVE c' = MAX_CONSECUTIVE c.
Proof.
  unfold select_phase.
  destruct (candidate (smooth_counts c)) as [a|]; simpl; [|tauto].
  match goal with
  | |- context [Py.getitem ?sc ?k] => destruct (Py.getitem sc k)
  end; simpl; tauto.
Qed.

Lemma decide_signal_object c t t' :
  object_after (decide_signal c t t') =
  if phase_over c t then object_after (select_phase c) else c.
Proof.
  unfold decide_signal.
  destruct (phase_over c t); [|reflexivity].
  destruct (select_phase c); reflexivity.
Qed.

Lemma decide_signal_preserves c t t' :
  let c' := object_after (decide_signal c t t') in
  smooth_counts c' = smooth_counts c /\
  green_end_time c' = green_end_time c /\
  MIN_GREEN c' = MIN_GREEN c /\ MAX_GREEN c' = MAX_GREEN c /\
  ALPHA c' = ALPHA c /\ MAX_CONSECUTIVE c' = MAX_CONSECUTIVE c.
Proof.
  simpl. rewrite decide_signal_object.
  destruct (phase_over c t); [apply select_phase_preserves | tauto].
Qed.

(** The smoothing evaluated exactly.  Along every sequence of calls whose
    raw counts are non-negative, with [0 <= ALPHA < 1], a direction whose
    smoothed count starts at a non-negative [x0] keeps a smoothed count
    between 0 and the greatest of [x0] and the raw counts observed for
    it. *)
Theorem smoothing_bound c ks d x0 :
  0 <= ALPHA c -> ALPHA c < 1 ->
  (forall raw k n, In (UpdateCounts raw) ks -> In (k, n) raw -> (0 <= n)%Z) ->
  Py.getitem (smooth_counts c) d = Some x0 -> 0 <= x0 ->
  exists x,
    Py.getitem (smooth_counts (run c ks)) d = Some x /\
    0 <= x /\ x <= observed_max d ks x0.
Proof.
  intros Ha0 Ha1 Hraw Hx Hx0.
  assert (Hgen : forall ks c x m,
    0 <= ALPHA c -> ALPHA c < 1 ->
    (forall raw k n, In (UpdateCounts raw) ks -> In (k, n) raw -> (0 <= n)%Z) ->
    Py.getitem (smooth_counts c) d = Some x -> 0 <= x -> x <= m ->
    exists x', Py.getitem (smooth_counts (run c ks)) d = Some x' /\
               0 <= x' /\ x' <= observed_max d ks m).
  { clear. induction ks as [|k ks IH]; intros c x m Ha0 Ha1 Hraw Hx Hx0 Hxm.
    - exists x. simpl. auto.
    - assert (Hraw' : forall raw k' n, In (UpdateCounts raw) ks ->
                                       In (k', n) raw -> (0 <= n)%Z)
        by (intros raw k' n H; apply Hraw; now right).
      unfold run. simpl. fold (run (step c k) ks).
      destruct k as [raw|t t']; simpl.
      + rewrite update_counts_object.
        destruct (update_loop_bound (ALPHA c) d raw (smooth_counts c) x m)
          as (x' & Hx' & Hlo & Hhi); auto.
        { intros k n. apply Hraw. now left. }
        apply IH with (x := x'); auto.
      + destruct (decide_signal_preserves c t t')
          as (Hsc & _ & _ & _ & Hal & _).
        apply IH with (x := x); auto; try (rewrite Hal; assumption).
        rewrite Hsc. assumption. }
  apply Hgen with (x := x0); auto. apply Qle_refl.
Qed.

Lemma smoothing_bound_witness :
  let ks := [UpdateCounts scenario_A_counts; DecideSignal 1000 1000;
             UpdateCounts scenario_A_counts] in
  0 <= ALPHA default_controller /\ ALPHA default_controller < 1 /\
  (forall raw k n, In (UpdateCounts raw) ks -> In (k, n) raw -> (0 <= n)%Z) /\
  Py.getitem (smooth_counts default_controller) "NORTH" = Some 0 /\
  0 <= 0 /\
  exists x,
    Py.getitem (smooth_counts (run default_controller ks)) "NORTH" = Some x /\
    0 <= x /\ x <= observed_max "NORTH" ks 0.
Proof.
  intros ks.
  assert (H0 : 0 <= ALPHA default_controller) by (vm_compute; discriminate).
  assert (H1 : ALPHA default_controller < 1) by reflexivity.
  assert (H2 : forall raw k n, In (UpdateCounts raw) ks -> In (k, n) raw ->
                               (0 <= n)%Z).
  { intros raw k n Hin Hkn.
    assert (Hraw : raw = scenario_A_counts).
    { simpl in Hin. destruct Hin as [H|[H|[H|[]]]]; congruence. }
    subst raw. simpl in Hkn.
    destruct Hkn as [H|[H|[H|[H|[]]]]]; injection H as _ <-; lia. }
  assert (H3 : Py.getitem (smooth_counts default_controller) "NORTH" = Some 0)
    by reflexivity.
  assert (H4 : 0 <= 0) by apply Qle_refl.
  repeat (split; [assumption|]).
  exact (smoothing_bound default_controller ks "NORTH" 0 H0 H1 H2 H3 H4).
Defined.

(** ** The candidate of a selection *)

Lemma max_from_ge l : forall m,
  m <= Py.max_from m l /\ forall y, In y l -> y <= Py.max_from m l.
Proof.
  induction l as [|x l IH]; intros m; simpl.
  - split; [apply Qle_refl | tauto].
  - destruct (Qle_bool x m) eqn:E.
    + destruct (IH m) as [Hm Hl]. split; [assumption|].
      intros y [<-|Hy]; auto.
      apply Qle_bool_iff in E. eapply Qle_trans; eassumption.
    + destruct (IH x) as [Hx Hl]. split.
      * assert (m < x).
        { apply Qnot_le_lt. intros H. apply Qle_bool_iff in H. congruence. }
        eapply Qle_trans; [apply Qlt_le_weak|]; eassumption.
      * intros y [<-|Hy]; auto.
Qed.

Lemma max_from_in l : forall m, In (Py.max_from m l) (m :: l).
Proof.
  induction l as [|x l IH]; intros m; simpl; [now left|].
  destruct (Qle_bool x m).
  - destruct (IH m) as [H|H]; [now left | right; now right].
  - right. apply IH.
Qed.

(** [index] finds the first item equal to the value, and finds one
    whenever the value occurs. *)
Lemma index_first l v : forall i,
  Py.index l v = Some i ->
  (exists x, nth_error l i = Some x /\ x == v) /\
  forall j y, (j < i)%nat -> nth_error l j = Some y -> ~ y == v.
Proof.
  induction l as [|x l IH]; intros i; simpl; [discriminate|].
  destruct (Qeq_bool x v) eqn:E.
  - intros H. injection H as <-. split.
    + exists x. split; [reflexivity | now apply Qeq_bool_iff].
    + intros j y Hj. lia.
  - destruct (Py.index l v) as [i'|]; [|discriminate].
    intros H. injection H as <-.
    destruct (IH i' eq_refl) as [Hx Hbefore]. split; [exact Hx|].
    intros [|j] y Hj; simpl.
    + intros H. injection H as <-. intros Heq.
      apply Qeq_bool_iff in Heq. congruence.
    + apply Hbefore. lia.
Qed.

Lemma index_found l v : In v l -> Py.index l v <> None.
Proof.
  induction l as [|x l IH]; simpl; [tauto|].
  intros [->|H].
  - rewrite (proj2 (Qeq_bool_iff v v) (Qeq_refl v)). discriminate.
  - destruct (Qeq_bool x v); [discriminate|].
    destruct (Py.index l v); [discriminate | now apply IH].
Qed.

Lemma nth_error_item {V : Type} (sc : list (string * V)) i k x :
  nth_error (Py.keys sc) i = Some k ->
  nth_error (Py.values sc) i = Some x ->
  nth_error sc i = Some (k, x).
Proof.
  unfold Py.keys, Py.values. rewrite !nth_error_map.
  destruct (nth_error sc i) as [[k' x']|]; simpl; congruence.
Qed.

(** The candidate is the key of the first item that carries the greatest
    value. *)
Lemma candidate_spec sc :
  sc <> [] ->
  exists i d x,
    candidate sc = Some d /\
    nth_error sc i = Some (d, x) /\
    forall j k y, nth_error sc j = Some (k, y) ->
      y <= x /\ ((j < i)%nat -> y < x).
Proof.
  intros Hne.
  destruct sc as [|[k0 x0] sc']; [congruence|].
  set (sc := (k0, x0) :: sc') in *.
  set (m := Py.max_from x0 (Py.values sc')).
  assert (Hm : Py.max (Py.values sc) = Some m) by reflexivity.
  assert (Hin : In m (Py.values sc)) by apply max_from_in.
  assert (Hge : forall y, In y (Py.values sc) -> y <= m).
  { destruct (max_from_ge (Py.values sc') x0) as [H0 Hl].
    intros y [<-|Hy]; [exact H0 | now apply Hl]. }
  destruct (Py.index (Py.values sc) m) as [i|] eqn:Ei.
  2:{ exfalso. revert Ei. now apply index_found. }
  destruct (index_first _ _ _ Ei) as [(x & Hx & Hxm) Hbefore].
  assert (Hlen : (i < List.length (Py.keys sc))%nat).
  { unfold Py.keys. rewrite List.length_map.
    apply nth_error_Some. intros Hnone.
    unfold Py.values in Hx. rewrite nth_error_map, Hnone in Hx.
    discriminate. }
  destruct (nth_error (Py.keys sc) i) as [d|] eqn:Ed.
  2:{ apply nth_error_Some in Hlen. contradiction. }
  exists i, d, x.
  split; [unfold candidate; rewrite Hm, Ei; exact Ed|].
  split; [now apply nth_error_item|].
  intros j k y Hj.
  assert (Hy : nth_error (Py.values sc) j = Some y).
  { unfold Py.values. rewrite nth_error_map, Hj. reflexivity. }
  assert (Hym : y <= m) by (apply Hge; eapply nth_error_In; eassumption).
  split.
  - rewrite Hxm. assumption.
  - intros Hlt. rewrite Hxm.
    apply Qle_lteq in Hym. destruct Hym as [H|H]; [assumption|].
    exfalso. exact (Hbefore j y Hlt Hy H).
Qed.

(** C7. For every assignment of smoothed counts to the directions
    NORTH, EAST, SOUTH, WEST (in this order), the selection step has a
    candidate; its count is the greatest, and every direction placed before
    it in that order has a strictly smaller count.  The candidate is a
    function of the counts, so equal inputs give equal candidates. *)
Theorem candidate_first_maximum sc :
  Py.keys sc = DIRECTIONS ->
  exists i d x,
    candidate sc = Some d /\
    nth_error DIRECTIONS i = Some d /\
    nth_error (Py.values sc) i = Some x /\
    forall j y, nth_error (Py.values sc) j = Some y ->
      y <= x /\ ((j < i)%nat -> y < x).
Proof.
  intros Hkeys.
  assert (Hne : sc <> []) by (intros ->; discriminate).
  destruct (candidate_spec sc Hne) as (i & d & x & Hc & Hi & Hmax).
  exists i, d, x. split; [assumption|].
  split; [rewrite <- Hkeys; unfold Py.keys; now rewrite nth_error_map, Hi|].
  split; [unfold Py.values; now rewrite nth_error_map, Hi|].
  intros j y Hy. unfold Py.values in Hy. rewrite nth_error_map in Hy.
  destruct (nth_error sc j) as [[k y']|] eqn:Ej; [|discriminate].
  injection Hy as <-. exact (Hmax j k y' Ej).
Qed.

Lemma candidate_first_maximum_witness :
  let sc := [("NORTH", 1); ("EAST", 5); ("SOUTH", 5); ("WEST", 2)]%string in
  Py.keys sc = DIRECTIONS /\
  exists i d x,
    candidate sc = Some d /\
    nth_error DIRECTIONS i = Some d /\
    nth_error (Py.values sc) i = Some x /\
    forall j y, nth_error (Py.values sc) j = Some y ->
      y <= x /\ ((j < i)%nat -> y < x).
Proof.
  intros sc.
  assert (Hk : Py.keys sc = DIRECTIONS) by reflexivity.
  split; [exact Hk|].
  exact (candidate_first_maximum sc Hk).
Defined.

(** ** The sorted view used by the fairness override *)

Lemma insert_desc_in x l y :
  In y (Py.insert_desc x l) <-> y = x \/ In y l.
Proof.
  induction l as [|z l IH]; simpl.
  - intuition.
  - destruct (Qle_bool (snd z) (snd x)); simpl; [intuition|].
    rewrite IH. intuition.
Qed.

Lemma sorted_desc_in l y : In y (Py.sorted_desc l) <-> In y l.
Proof.
  induction l as [|x l IH]; simpl; [tauto|].
  rewrite insert_desc_in, IH. intuition.
Qed.

Lemma insert_desc_descending x l :
  descending l -> descending (Py.insert_desc x l).
Proof.
  induction 1 as [|z l Hz Hl IH]; simpl.
  - constructor; [simpl; tauto | constructor].
  - destruct (Qle_bool (snd z) (snd x)) eqn:E.
    + apply Qle_bool_iff in E. constructor; [|now constructor].
      intros y [<-|Hy]; [assumption|].
      eapply Qle_trans; [apply Hz|]; eassumption.
    + constructor; [|assumption].
      intros y Hy. apply insert_desc_in in Hy. destruct Hy as [->|Hy]; auto.
      apply Qlt_le_weak, Qnot_le_lt. intros H.
      apply Qle_bool_iff in H. congruence.
Qed.

Lemma sorted_desc_descending l : descending (Py.sorted_desc l).
Proof.
  induction l; simpl; [constructor | now apply insert_desc_descending].
Qed.

(** The first item of a descending list that passes a test carries the
    greatest value among the items that pass it. *)
Lemma find_descending p l a :
  descending l -> find p l = Some a ->
  forall b, In b l -> p b = true -> snd b <= snd a.
Proof.
  induction 1 as [|x l Hx Hl IH]; simpl; [discriminate|].
  destruct (p x) eqn:E.
  - intros H. injection H as <-.
    intros b [<-|Hb] _; [apply Qle_refl | now apply Hx].
  - intros Hf b [<-|Hb] Hp; [congruence | now apply IH].
Qed.

Lemma eq_last_true last d : eq_last last d = true <-> last = Some d.
Proof.
  destruct last as [l|]; simpl.
  - rewrite String.eqb_eq. split; congruence.
  - split; discriminate.
Qed.

(** With a key other than [last] in the dict, the override picks a key
    other than [last], and no key other than [last] has a greater value. *)
Lemma reselect_spec sc last selected :
  NoDup (Py.keys sc) ->
  (exists k, In k (Py.keys sc) /\ last <> Some k) ->
  exists d x,
    reselect sc last selected = d /\
    last <> Some d /\
    Py.getitem sc d = Some x /\
    forall d' y, last <> Some d' -> Py.getitem sc d' = Some y -> y <= x.
Proof.
  intros Hnd (k & Hk & Hne). unfold reselect.
  set (p := fun it : string * Q => negb (eq_last last (fst it))).
  destruct (find p (Py.sorted_desc sc)) as [[d x]|] eqn:Ef.
  - destruct (find_some _ _ Ef) as [Hin Hp].
    apply (proj1 (sorted_desc_in _ _)) in Hin.
    exists d, x. split; [reflexivity|]. split.
    + intros Hl. apply (proj2 (eq_last_true _ _)) in Hl.
      unfold p in Hp. simpl in Hp. rewrite Hl in Hp. discriminate.
    + split; [now apply in_getitem|].
      intros d' y Hd' Hy.
      apply (find_descending p _ (d, x) (sorted_desc_descending sc) Ef (d', y)).
      * apply sorted_desc_in. now apply getitem_in.
      * unfold p. simpl. destruct (eq_last last d') eqn:E; [|reflexivity].
        apply (proj1 (eq_last_true _ _)) in E. contradiction.
  - exfalso.
    destruct (Py.getitem sc k) as [v|] eqn:Ev.
    2:{ apply getitem_in_keys in Hk. contradiction. }
    apply getitem_in, (proj2 (sorted_desc_in _ _)) in Ev.
    pose proof (find_none _ _ Ef _ Ev) as Hp.
    unfold p in Hp. simpl in Hp.
    destruct (eq_last last k) eqn:E; [|discriminate].
    apply (proj1 (eq_last_true _ _)) in E. contradiction.
Qed.

Lemma reselect_in_keys sc last selected :
  In selected (Py.keys sc) -> In (reselect sc last selected) (Py.keys sc).
Proof.
  intros Hsel. unfold reselect.
  destruct (find _ (Py.sorted_desc sc)) as [[d x]|] eqn:Ef; [|assumption].
  destruct (find_some _ _ Ef) as [Hin _].
  apply (proj1 (sorted_desc_in _ _)) in Hin.
  change d with (fst (d, x)). now apply in_map.
Qed.

Lemma candidate_in_keys sc d : candidate sc = Some d -> In d (Py.keys sc).
Proof.
  intros Hc.
  destruct sc as [|it sc']; [discriminate|].
  destruct (candidate_spec (it :: sc')) as (i & d' & x & Hc' & Hi & _);
    [discriminate|].
  rewrite Hc in Hc'. injection Hc' as <-.
  change d with (fst (d, x)). apply in_map.
  eapply nth_error_In. eassumption.
Qed.

(** ** The selection block *)

(** On a non-empty dict the block returns; the lemma names what it
    assigns. *)
Lemma select_phase_returns c :
  smooth_counts c <> [] ->
  exists a c' x,
    candidate (smooth_counts c) = Some a /\
    select_phase c = Returned c' tt /\
    let count := if eq_last (last_green c) a
                 then (consecutive_count c + 1)%Z else 1%Z in
    let over := (MAX_CONSECUTIVE c <? count)%Z in
    let selected := if over then reselect (smooth_counts c) (last_green c) a
                    else a in
    current_green c' = Some selected /\
    last_green c' = Some selected /\
    consecutive_count c' = (if over then 1%Z else count) /\
    Py.getitem (smooth_counts c) selected = Some x /\
    current_duration c' = green_time (MIN_GREEN c) (MAX_GREEN c) x.
Proof.
  intros Hne.
  destruct (candidate_spec _ Hne) as (i & a & xa & Hc & _ & _).
  pose proof (candidate_in_keys _ _ Hc) as Ha.
  unfold select_phase. rewrite Hc.
  set (count := if eq_last (last_green c) a
                then (consecutive_count c + 1)%Z else 1%Z).
  set (over := (MAX_CONSECUTIVE c <? count)%Z).
  set (selected := if over then reselect (smooth_counts c) (last_green c) a
                   else a).
  assert (Hsel : In selected (Py.keys (smooth_counts c))).
  { unfold selected. destruct over; [now apply reselect_in_keys | assumption]. }
  destruct (Py.getitem (smooth_counts c) selected) as [x|] eqn:Ex.
  2:{ apply getitem_in_keys in Hsel. contradiction. }
  exists a. eexists. exists x.
  split; [reflexivity|]. split; [reflexivity|].
  simpl. repeat split. exact Ex.
Qed.

Lemma decide_signal_selects c t t' c' :
  phase_over c t = true ->
  select_phase c = Returned c' tt ->
  decide_signal c t t' = Returned c' (current_green c', remaining_at c' t').
Proof.
  intros Hover Hsel. unfold decide_signal. now rewrite Hover, Hsel.
Qed.

(** On a non-negative float [int] is the floor. *)
Lemma int_floor x : 0 <= x -> Py.int x = Qfloor x.
Proof.
  destruct x as [n d]. unfold Qle, Py.int. simpl. intros H.
  apply Z.quot_div_nonneg; lia.
Qed.

Lemma green_time_clamp lo hi x :
  (lo <= hi)%Z -> 0 <= x ->
  green_time lo hi x = clamp (Qfloor x * 2) lo hi /\
  (lo <= green_time lo hi x <= hi)%Z.
Proof.
  intros Hlh Hx. unfold green_time, clamp. rewrite (int_floor x Hx).
  destruct (Z.ltb_spec (Qfloor x * 2) lo);
    [|destruct (Z.ltb_spec hi (Qfloor x * 2))]; lia.
Qed.

(** C5. When [decide_signal] makes a selection on non-negative smoothed
    counts and [MIN_GREEN <= MAX_GREEN], it returns the selected direction,
    and the duration it stores is [floor(smooth_counts[selected]) * 2]
    clamped into [MIN_GREEN, MAX_GREEN]; it lies between the two bounds. *)
Theorem duration_clamped c t t' :
  phase_over c t = true ->
  smooth_counts c <> [] ->
  (MIN_GREEN c <= MAX_GREEN c)%Z ->
  (forall d x, Py.getitem (smooth_counts c) d = Some x -> 0 <= x) ->
  exists c' selected x r,
    decide_signal c t t' = Returned c' (Some selected, r) /\
    Py.getitem (smooth_counts c) selected = Some x /\
    current_duration c' = clamp (Qfloor x * 2) (MIN_GREEN c) (MAX_GREEN c) /\
    (MIN_GREEN c <= current_duration c' <= MAX_GREEN c)%Z.
Proof.
  intros Hover Hne Hbounds Hpos.
  destruct (select_phase_returns c Hne)
    as (a & c' & x & _ & Hsel & Hcur & _ & _ & Hx & Hdur).
  rewrite (decide_signal_selects c t t' c' Hover Hsel), Hcur.
  do 4 eexists. split; [reflexivity|]. split; [exact Hx|].
  rewrite Hdur. apply green_time_clamp; [assumption|].
  eapply Hpos. exact Hx.
Qed.

Lemma duration_clamped_witness :
  phase_over scenario_A 1000 = true /\
  smooth_counts scenario_A <> [] /\
  (MIN_GREEN scenario_A <= MAX_GREEN scenario_A)%Z /\
  (forall d x, Py.getitem (smooth_counts scenario_A) d = Some x -> 0 <= x) /\
  exists c' selected x r,
    decide_signal scenario_A 1000 1000 = Returned c' (Some selected, r) /\
    Py.getitem (smooth_counts scenario_A) selected = Some x /\
    current_duration c' =
      clamp (Qfloor x * 2) (MIN_GREEN scenario_A) (MAX_GREEN scenario_A) /\
    (MIN_GREEN scenario_A <= current_duration c' <= MAX_GREEN scenario_A)%Z.
Proof.
  assert (H1 : phase_over scenario_A 1000 = true) by reflexivity.
  assert (H2 : smooth_counts scenario_A <> []) by (vm_compute; discriminate).
  assert (H3 : (MIN_GREEN scenario_A <= MAX_GREEN scenario_A)%Z)
    by (vm_compute; discriminate).
  assert (H4 : forall d x,
             Py.getitem (smooth_counts scenario_A) d = Some x -> 0 <= x).
  { intros d x. vm_compute smooth_counts. simpl.
    repeat match goal with
           | |- context [String.eqb d ?k] => destruct (String.eqb d k)
           end;
      intros H; try discriminate; injection H as <-; vm_compute; discriminate. }
  repeat (split; [assumption|]).
  exact (duration_clamped scenario_A 1000 1000 H1 H2 H3 H4).
Defined.

(** ** What no call changes *)

Lemma step_preserves c k :
  Py.keys (smooth_counts (step c k)) = Py.keys (smooth_counts c) /\
  green_end_time (step c k) = green_end_time c /\
  MIN_GREEN (step c k) = MIN_GREEN c /\ MAX_GREEN (step c k) = MAX_GREEN c /\
  ALPHA (step c k) = ALPHA c /\
  MAX_CONSECUTIVE (step c k) = MAX_CONSECUTIVE c.
Proof.
  destruct k as [raw|t t']; simpl.
  - pose proof (update_counts_fields c raw) as H. simpl in H. tauto.
  - pose proof (decide_signal_preserves c t t') as H. simpl in H.
    destruct H as (-> & H). tauto.
Qed.

Lemma run_preserves ks : forall c,
  Py.keys (smooth_counts (run c ks)) = Py.keys (smooth_counts c) /\
  green_end_time (run c ks) = green_end_time c /\
  MIN_GREEN (run c ks) = MIN_GREEN c /\ MAX_GREEN (run c ks) = MAX_GREEN c /\
  ALPHA (run c ks) = ALPHA c /\
  MAX_CONSECUTIVE (run c ks) = MAX_CONSECUTIVE c.
Proof.
  induction ks as [|k ks IH]; intros c; [simpl; tauto|].
  change (run c (k :: ks)) with (run (step c k) ks).
  destruct (IH (step c k)) as (-> & -> & -> & -> & -> & ->).
  apply step_preserves.
Qed.

(** ** Fairness *)

Lemma directions_other last :
  exists k, In k DIRECTIONS /\ last <> Some k.
Proof.
  destruct (eq_last last "NORTH") eqn:E.
  - apply (proj1 (eq_last_true _ _)) in E. subst last.
    exists "EAST"%string. split; [simpl; tauto | discriminate].
  - exists "NORTH"%string. split; [simpl; tauto|].
    intros H. apply (proj2 (eq_last_true _ _)) in H. congruence.
Qed.

Lemma directions_nodup : NoDup DIRECTIONS.
Proof. repeat constructor; simpl; intuition discriminate. Qed.

(** The counter bounds the block of [last_green] that the coming
    selections can extend, and no later block is longer than the limit. *)
Lemma selections_fair ks : forall c,
  Py.keys (smooth_counts c) = DIRECTIONS ->
  (1 <= MAX_CONSECUTIVE c)%Z ->
  (0 <= consecutive_count c <= MAX_CONSECUTIVE c)%Z ->
  (Z.of_nat (longest_run (selections c ks)) <= MAX_CONSECUTIVE c)%Z /\
  forall l, last_green c = Some l ->
    (consecutive_count c + Z.of_nat (leading l (selections c ks))
     <= MAX_CONSECUTIVE c)%Z.
Proof.
  induction ks as [|k ks IH]; intros c Hkeys Hmax Hcc.
  - simpl. split; [lia | intros; lia].
  - destruct (step_preserves c k) as (Hk' & _ & _ & _ & _ & Hm').
    destruct k as [raw|t t'].
    + (* update_counts leaves the fairness state alone *)
      pose proof (update_counts_fields c raw) as Hf. simpl in Hf.
      destruct Hf as (_ & _ & _ & _ & _ & _ & _ & Hlast & Hcount & _).
      change (selections c (UpdateCounts raw :: ks))
        with (selections (step c (UpdateCounts raw)) ks).
      simpl in Hk', Hm' |- *.
      destruct (IH (object_after (update_counts c raw))) as [H1 H2];
        try (rewrite ?Hk', ?Hm', ?Hcount; assumption).
      rewrite Hm', Hcount, Hlast in *. auto.
    + cbn [selections].
      destruct (phase_over c t) eqn:Hover.
      2:{ (* the guard is false: nothing is selected, nothing changes *)
          assert (Hstep : step c (DecideSignal t t') = c).
          { simpl. rewrite decide_signal_object, Hover. reflexivity. }
          rewrite Hstep. simpl. apply IH; assumption. }
      assert (Hne : smooth_counts c <> []).
      { intros E. rewrite E in Hkeys. discriminate. }
      destruct (select_phase_returns c Hne)
        as (a & c' & x & Hcand & Hsel & Hcur & Hlast & Hcount & _).
      assert (Hstep : step c (DecideSignal t t') = c').
      { simpl. rewrite decide_signal_object, Hover, Hsel. reflexivity. }
      rewrite (decide_signal_selects c t t' c' Hover Hsel), Hcur, Hstep.
      rewrite Hstep in Hk', Hm'.
      cbv zeta in Hcur, Hlast, Hcount.
      set (count := if eq_last (last_green c) a
                    then (consecutive_count c + 1)%Z else 1%Z) in *.
      set (selected :=
             if (MAX_CONSECUTIVE c <? count)%Z
             then reselect (smooth_counts c) (last_green c) a else a) in *.
      assert (Hcount1 : (1 <= count)%Z).
      { unfold count. destruct (eq_last (last_green c) a); lia. }
      assert (Hcc' : (1 <= consecutive_count c' <= MAX_CONSECUTIVE c)%Z).
      { rewrite Hcount. destruct (Z.ltb_spec (MAX_CONSECUTIVE c) count); lia. }
      destruct (IH c') as [H1 H2]; try (rewrite ?Hk', ?Hm'; assumption || lia).
      specialize (H2 selected Hlast). rewrite Hm' in H1, H2.
      simpl app. split.
      * cbn [longest_run]. lia.
      * intros l Hl. cbn [leading].
        destruct (String.eqb selected l) eqn:Esl; [|lia].
        apply String.eqb_eq in Esl. subst l.
        (* the selected direction is [last_green]: no override happened *)
        destruct (Z.ltb_spec (MAX_CONSECUTIVE c) count) as [Hov|Hov].
        -- exfalso.
           destruct (reselect_spec (smooth_counts c) (last_green c) a)
             as (d & y & Hd & Hne' & _).
           ++ rewrite Hkeys. apply directions_nodup.
           ++ rewrite Hkeys. apply directions_other.
           ++ apply Hne'. unfold selected in Hl. rewrite Hd in Hl. exact Hl.
        -- unfold selected in Hl.
           assert (Hcnt : count = (consecutive_count c + 1)%Z).
           { unfold count.
             rewrite (proj2 (eq_last_true _ _) Hl). reflexivity. }
           lia.
Qed.

(** C6. On a controller built with a limit of at least 1, whatever the
    sequence of calls: (1) the directions chosen by successive selections
    never contain a block of equal adjacent items longer than
    [MAX_CONSECUTIVE]; (2) when a selection finds that its candidate is
    [last_green] and that counting it would exceed the limit, the call
    returns a direction other than [last_green] whose smoothed count is the
    greatest among the directions other than [last_green], and the
    consecutive count is reset to 1.  No condition on the other counts is
    needed: a direction of count 0 is taken as well. *)
Theorem fairness_bound min_green max_green alpha max_consecutive ks :
  (1 <= max_consecutive)%Z ->
  let c0 := init min_green max_green alpha max_consecutive in
  (Z.of_nat (longest_run (selections c0 ks)) <= max_consecutive)%Z /\
  forall t t' l,
    let c := run c0 ks in
    phase_over c t = true ->
    candidate (smooth_counts c) = Some l ->
    last_green c = Some l ->
    (max_consecutive < consecutive_count c + 1)%Z ->
    exists c' d x r,
      decide_signal c t t' = Returned c' (Some d, r) /\
      d <> l /\
      Py.getitem (smooth_counts c) d = Some x /\
      (forall d' y, d' <> l ->
                    Py.getitem (smooth_counts c) d' = Some y -> y <= x) /\
      last_green c' = Some d /\
      consecutive_count c' = 1%Z.
Proof.
  intros Hmax c0. split.
  - apply (selections_fair ks c0); simpl; [reflexivity | assumption | lia].
  - intros t t' l c Hover Hcand Hlast Hexceed.
    destruct (run_preserves ks c0) as (Hkeys & _ & _ & _ & _ & Hm).
    fold c in Hkeys, Hm. simpl in Hkeys, Hm.
    change (Py.keys (smooth_counts c) = DIRECTIONS) in Hkeys.
    assert (Hne : smooth_counts c <> []).
    { intros E. rewrite E in Hkeys. discriminate. }
    destruct (select_phase_returns c Hne)
      as (a & c' & x & Hcand' & Hsel & Hcur & Hlast' & Hcount & Hx & _).
    rewrite Hcand in Hcand'. injection Hcand' as <-.
    cbv zeta in Hcur, Hlast', Hcount, Hx.
    rewrite (proj2 (eq_last_true _ _) Hlast), Hm in *.
    rewrite (proj2 (Z.ltb_lt _ _) Hexceed) in *.
    destruct (reselect_spec (smooth_counts c) (last_green c) l)
      as (d & y & Hd & Hne' & Hy & Hgreatest).
    { rewrite Hkeys. apply directions_nodup. }
    { rewrite Hkeys. apply directions_other. }
    rewrite Hd in *. rewrite Hy in Hx. injection Hx as <-.
    rewrite (decide_signal_selects c t t' c' Hover Hsel), Hcur.
    exists c', d, y, (remaining_at c' t').
    split; [reflexivity|].
    split; [intros ->; apply Hne'; exact Hlast|].
    split; [exact Hy|].
    split; [|split; assumption].
    intros d' z Hd' Hz. apply (Hgreatest d' z); [|exact Hz].
    rewrite Hlast. congruence.
Qed.

Lemma fairness_bound_witness :
  let ks := [UpdateCounts scenario_A_counts; DecideSignal 1000 1000;
             DecideSignal 1001 1001] in
  let c0 := init 15 90 (7 # 10) 2 in
  (1 <= 2)%Z /\
  (Z.of_nat (longest_run (selections c0 ks)) <= 2)%Z /\
  exists c' d x r,
    decide_signal (run c0 ks) 1002 1002 = Returned c' (Some d, r) /\
    d <> "NORTH"%string /\
    Py.getitem (smooth_counts (run c0 ks)) d = Some x /\
    (forall d' y, d' <> "NORTH"%string ->
                  Py.getitem (smooth_counts (run c0 ks)) d' = Some y ->
                  y <= x) /\
    last_green c' = Some d /\
    consecutive_count c' = 1%Z.
Proof.
  intros ks c0.
  assert (H : (1 <= 2)%Z) by lia.
  destruct (fairness_bound 15 90 (7 # 10) 2 ks H) as [Hruns Hoverride].
  split; [exact H|]. split; [exact Hruns|].
  apply (Hoverride 1002 1002 "NORTH"%string).
  - reflexivity.
  - reflexivity.
  - reflexivity.
  - reflexivity.
Defined.

(** ** The end of the phase *)

(** While the guard sees a phase in progress, [decide_signal] returns its
    direction and changes nothing. *)
Lemma decide_signal_active c d t t' :
  current_green c = Some d ->
  t < green_end_time c ->
  decide_signal c t t' = Returned c (Some d, remaining_at c t').
Proof.
  intros Hg Ht. unfold decide_signal, phase_over. rewrite Hg.
  destruct (Qle_bool (green_end_time c) t) eqn:E; [|reflexivity].
  apply Qle_bool_iff in E. exfalso. apply (Qlt_not_le _ _ Ht E).
Qed.

(** No method assigns [green_end_time]: it keeps the value given by
    [__init__]. *)
Lemma green_end_time_never_assigned min_green max_green alpha max_consecutive
  ks :
  green_end_time (run (init min_green max_green alpha max_consecutive) ks) = 0.
Proof.
  destruct (run_preserves ks (init min_green max_green alpha max_consecutive))
    as (_ & H & _).
  exact H.
Qed.

Lemma int_nonpositive x : x <= 0 -> (Py.int x <= 0)%Z.
Proof.
  destruct x as [n d]. unfold Qle, Py.int. simpl. intros H.
  assert (Hn : (n <= 0)%Z) by lia.
  replace n with (- (- n))%Z by lia. rewrite Z.quot_opp_l by lia.
  assert (0 <= (- n) ÷ Z.pos d)%Z by (apply Z.quot_pos; lia).
  lia.
Qed.

(** Against an end time of 0 the remaining time is 0 at every clock
    reading that is not negative. *)
Lemma remaining_at_zero c t :
  green_end_time c = 0 -> 0 <= t -> remaining_at c t = 0%Z.
Proof.
  intros He Ht. unfold remaining_at. rewrite He.
  assert (H : (Py.int (0 - t) <= 0)%Z) by (apply int_nonpositive; lra).
  destruct (Z.ltb_spec (Py.int (0 - t)) 0); lia.
Qed.

(** On a controller obtained from the constructor by any sequence of
    calls, at clock readings that are not negative, every call of
    [decide_signal] runs the selection block and returns 0 seconds. *)
Lemma decide_signal_always_selects min_green max_green alpha max_consecutive
  ks t t' :
  0 <= t -> 0 <= t' ->
  let c := run (init min_green max_green alpha max_consecutive) ks in
  phase_over c t = true /\
  exists c' d,
    select_phase c = Returned c' tt /\
    decide_signal c t t' = Returned c' (Some d, 0%Z).
Proof.
  intros Ht Ht' c.
  pose proof (green_end_time_never_assigned
                min_green max_green alpha max_consecutive ks) as He.
  fold c in He.
  destruct (run_preserves ks (init min_green max_green alpha max_consecutive))
    as (Hkeys & _).
  fold c in Hkeys.
  assert (Hover : phase_over c t = true).
  { unfold phase_over. destruct (current_green c); [|reflexivity].
    rewrite He. now apply Qle_bool_iff. }
  split; [exact Hover|].
  assert (Hne : smooth_counts c <> []).
  { intros E. rewrite E in Hkeys. discriminate. }
  destruct (select_phase_returns c Hne)
    as (a & c' & x & _ & Hsel & Hcur & _).
  destruct (select_phase_preserves c) as (_ & He' & _).
  rewrite Hsel in He'. simpl in He'.
  rewrite (decide_signal_selects c t t' c' Hover Hsel), Hcur.
  rewrite remaining_at_zero by (rewrite ?He', ?He; auto).
  eauto.
Qed.

Lemma int_cases x :
  (0 <= x /\ Py.int x = Qfloor x) \/ (x < 0 /\ Py.int x = Qceiling x).
Proof.
  destruct (Qlt_le_dec x 0) as [Hneg|Hpos].
  - right. split; [assumption|].
    destruct x as [n d]. unfold Qlt in Hneg. simpl in Hneg.
    unfold Py.int, Qceiling. simpl.
    replace n with (- (- n))%Z at 1 by lia.
    rewrite Z.quot_opp_l by lia.
    rewrite Z.quot_div_nonneg by lia. reflexivity.
  - left. split; [assumption | now apply int_floor].
Qed.

(** Truncation toward zero is monotone. *)
Lemma int_monotone x y : x <= y -> (Py.int x <= Py.int y)%Z.
Proof.
  intros Hxy.
  destruct (int_cases x) as [[Hx ->]|[Hx ->]];
    destruct (int_cases y) as [[Hy ->]|[Hy ->]].
  - now apply Qfloor_resp_le.
  - exfalso. lra.
  - assert (H1 : (Qceiling x <= Qceiling 0)%Z)
      by (apply Qceiling_resp_le; lra).
    assert (H2 : (Qfloor 0 <= Qfloor y)%Z) by now apply Qfloor_resp_le.
    change (Qceiling 0) with 0%Z in H1. change (Qfloor 0) with 0%Z in H2.
    lia.
  - now apply Qceiling_resp_le.
Qed.

(** The returned remaining time does not grow as the clock advances. *)
Lemma remaining_at_monotone c t1 t2 :
  t1 <= t2 -> (remaining_at c t2 <= remaining_at c t1)%Z.
Proof.
  intros H. unfold remaining_at.
  assert (Hm : (Py.int (green_end_time c - t2)
                <= Py.int (green_end_time c - t1))%Z)
    by (apply int_monotone; lra).
  destruct (Z.ltb_spec (Py.int (green_end_time c - t2)) 0);
    destruct (Z.ltb_spec (Py.int (green_end_time c - t1)) 0); lia.
Qed.

(** ** Construction *)

(** With the bounds inverted, the clamp written in [decide_signal] yields
    [MIN_GREEN], which then lies above [MAX_GREEN]. *)
Lemma green_time_inverted lo hi x : (hi < lo)%Z -> green_time lo hi x = lo.
Proof. unfold green_time. lia. Qed.

(** ** Scenario A and the persisted end of the phase *)

(** C1 (the code departs from it).  Scenario A, first selection at clock
    reading 1000: NORTH is chosen and a duration of 15 is stored, so the
    phase should last until 1015.  The call at 1001 runs the selection
    block again and raises the consecutive count from 1 to 2; the call at
    1002 returns EAST.  [decide_signal] never assigns [green_end_time], so
    its guard never sees a phase in progress. *)
Theorem phase_not_held :
  exists c1 c2 c3,
    decide_signal scenario_A 1000 1000 = Returned c1 (Some "NORTH"%string, 0%Z)
    /\ current_duration c1 = 15%Z
    /\ consecutive_count c1 = 1%Z
    /\ decide_signal c1 1001 1001 = Returned c2 (Some "NORTH"%string, 0%Z)
    /\ consecutive_count c2 = 2%Z
    /\ decide_signal c2 1002 1002 = Returned c3 (Some "EAST"%string, 0%Z).
Proof.
  do 3 eexists.
  split; [vm_compute; reflexivity|].
  split; [reflexivity|]. split; [reflexivity|].
  split; [vm_compute; reflexivity|].
  split; [reflexivity|].
  vm_compute; reflexivity.
Qed.

(** C2 (the code departs from it).  On a controller obtained from the
    constructor with a positive [min_green], at clock readings that are
    not negative, every call of [decide_signal] makes a selection, stores
    a duration of at least [min_green], and returns 0 remaining seconds:
    the remaining time at the start of a phase is not the duration. *)
Theorem remaining_not_duration min_green max_green alpha max_consecutive
  ks t t' :
  (0 < min_green)%Z -> 0 <= t -> 0 <= t' ->
  let c := run (init min_green max_green alpha max_consecutive) ks in
  exists c' d,
    decide_signal c t t' = Returned c' (Some d, 0%Z) /\
    (min_green <= current_duration c')%Z /\
    current_duration c' <> 0%Z.
Proof.
  intros Hmin Ht Ht' c.
  destruct (decide_signal_always_selects
              min_green max_green alpha max_consecutive ks t t' Ht Ht')
    as (Hover & c' & d & Hsel & Hdec).
  fold c in Hover, Hsel, Hdec.
  destruct (run_preserves ks (init min_green max_green alpha max_consecutive))
    as (Hkeys & _ & Hmn & _).
  fold c in Hkeys, Hmn. simpl in Hmn.
  assert (Hne : smooth_counts c <> []).
  { intros E. rewrite E in Hkeys. discriminate. }
  destruct (select_phase_returns c Hne)
    as (a & c1 & x & _ & Hsel1 & _ & _ & _ & _ & Hdur).
  rewrite Hsel in Hsel1. injection Hsel1 as <-.
  assert (Hge : (min_green <= current_duration c')%Z).
  { rewrite Hdur, Hmn. unfold green_time. lia. }
  exists c', d. split; [exact Hdec|]. split; [exact Hge | lia].
Qed.

Lemma remaining_not_duration_witness :
  (0 < 15)%Z /\ 0 <= 1000 /\ 0 <= 1000 /\
  let c := run (init 15 90 (7 # 10) 2) [UpdateCounts scenario_A_counts] in
  exists c' d,
    decide_signal c 1000 1000 = Returned c' (Some d, 0%Z) /\
    (15 <= current_duration c')%Z /\
    current_duration c' <> 0%Z.
Proof.
  assert (H1 : (0 < 15)%Z) by lia.
  assert (H2 : 0 <= 1000) by (vm_compute; discriminate).
  repeat (split; [assumption|]).
  exact (remaining_not_duration 15 90 (7 # 10) 2
           [UpdateCounts scenario_A_counts] 1000 1000 H1 H2 H2).
Defined.

(** Scenario A as the claim words it does not hold: the first selection
    does not give NORTH a duration of 24. *)
Lemma scenario_A_duration_is_not_24 :
  ~ exists c' r,
      decide_signal scenario_A 1000 1000
        = Returned c' (Some "NORTH"%string, r) /\
      current_duration c' = 24%Z.
Proof.
  intros (c' & r & Hdec & Hdur).
  vm_compute in Hdec. injection Hdec as <- _. discriminate Hdur.
Qed.

(** C8 (amended).  From the controller built with the defaults, after one
    [update_counts] with NORTH 12, EAST 3, SOUTH 1, WEST 2, the smoothed
    count of NORTH is 0.7 * 0 + 0.3 * 12 = 3.6; the first [decide_signal],
    at any clock reading, selects NORTH and stores the duration
    clamp(floor(3.6) * 2 = 6, 15, 90) = 15. *)
Theorem scenario_A_selection t t' :
  exists c' x,
    decide_signal scenario_A t t'
      = Returned c' (Some "NORTH"%string, remaining_at c' t') /\
    Py.getitem (smooth_counts scenario_A) "NORTH" = Some x /\
    x == 36 # 10 /\
    current_duration c' = clamp (Qfloor x * 2) 15 90 /\
    current_duration c' = 15%Z.
Proof.
  assert (Hover : phase_over scenario_A t = true) by reflexivity.
  assert (Hsel : exists c', select_phase scenario_A = Returned c' tt /\
                            current_green c' = Some "NORTH"%string /\
                            current_duration c' = 15%Z).
  { eexists. split; [vm_compute; reflexivity|]. split; reflexivity. }
  destruct Hsel as (c' & Hsel & Hcur & Hdur).
  exists c'. eexists.
  rewrite (decide_signal_selects scenario_A t t' c' Hover Hsel), Hcur.
  split; [reflexivity|].
  split; [vm_compute; reflexivity|].
  split; [reflexivity|].
  split; [rewrite Hdur; reflexivity | exact Hdur].
Qed.

(** Configurations that the specification calls malformed are accepted:
    inverted bounds, and a smoothing factor above 1. *)
Lemma malformed_configuration_accepted :
  construct 20 10 (7 # 10) 2 <> ConfigurationError /\
  construct 15 90 (3 # 2) 2 <> ConfigurationError.
Proof. split; discriminate. Qed.

(** C9 (amended).  The constructor validates nothing: for every
    [min_green], [max_green], [smoothing_alpha] and [max_consecutive],
    also with [min_green > max_green] or a smoothing factor outside
    [0, 1), it yields a controller that stores the four values as given. *)
Theorem construct_accepts_everything min_green max_green smoothing_alpha
  max_consecutive :
  exists c,
    construct min_green max_green smoothing_alpha max_consecutive
      = Constructed c /\
    MIN_GREEN c = min_green /\ MAX_GREEN c = max_green /\
    ALPHA c = smoothing_alpha /\ MAX_CONSECUTIVE c = max_consecutive.
Proof. eexists. split; [reflexivity|]. repeat split. Qed.

(** ** Cross-check of scenario A in binary64

    The selections of scenario A depend on the smoothed counts only through
    their order and through [int] of the selected one.  Evaluated in
    binary64, the four counts after the update are 3.6000000000000005,
    0.9000000000000001, 0.30000000000000004 and 0.6000000000000001: NORTH
    is the strict maximum, EAST the strict maximum of the others, NORTH
    lies in [3, 4) and EAST in [0, 1), so [int] gives 3 and 0 as it does
    on the rationals, and both durations clamp to 15. *)
Lemma scenario_A_binary64 :
  Binary64.scenario_A_order = true /\
  Py.int (ema SMOOTHING_ALPHA 0 12) = 3%Z /\
  Py.int (ema SMOOTHING_ALPHA 0 3) = 0%Z /\
  green_time MIN_GREEN_TIME MAX_GREEN_TIME (ema SMOOTHING_ALPHA 0 12) = 15%Z /\
  green_time MIN_GREEN_TIME MAX_GREEN_TIME (ema SMOOTHING_ALPHA 0 3) = 15%Z.
Proof. vm_compute. repeat split. Qed.

(** ** The dashboard *)

Lemma Qlt_bool_iff a b : Qlt_bool a b = true <-> a < b.
Proof.
  unfold Qlt_bool. destruct (Qle_bool b a) eqn:E; simpl.
  - apply Qle_bool_iff in E. split; [discriminate|].
    intros H. exfalso. exact (Qlt_not_le _ _ H E).
  - split; [intros _|reflexivity].
    apply Qnot_le_lt. intros H. apply Qle_bool_iff in H. congruence.
Qed.

Lemma Qlt_bool_false a b : Qlt_bool a b = false <-> b <= a.
Proof.
  unfold Qlt_bool. rewrite negb_false_iff. apply Qle_bool_iff.
Qed.

(** The level of a value, read off the three thresholds. *)
Lemma get_congestion_level_cases value :
  (value < 10 /\ Dashboard.get_congestion_level value = "LOW"%string) \/
  (10 <= value /\ value < 20 /\
   Dashboard.get_congestion_level value = "MEDIUM"%string) \/
  (20 <= value /\ value < 30 /\
   Dashboard.get_congestion_level value = "HIGH"%string) \/
  (30 <= value /\ Dashboard.get_congestion_level value = "CRITICAL"%string).
Proof.
  unfold Dashboard.get_congestion_level.
  change (inject_Z Config.CONGESTION_LOW) with 10.
  change (inject_Z Config.CONGESTION_MEDIUM) with 20.
  change (inject_Z Config.CONGESTION_HIGH) with 30.
  destruct (Qlt_bool value 10) eqn:E1.
  { left. split; [now apply Qlt_bool_iff | reflexivity]. }
  apply Qlt_bool_false in E1.
  destruct (Qlt_bool value 20) eqn:E2.
  { right. left. repeat split; [assumption | now apply Qlt_bool_iff]. }
  apply Qlt_bool_false in E2.
  destruct (Qlt_bool value 30) eqn:E3.
  { right. right. left.
    repeat split; [assumption | now apply Qlt_bool_iff]. }
  apply Qlt_bool_false in E3.
  right. right. right. split; [assumption | reflexivity].
Qed.

(** X8.  A greater count never shows a lower congestion level. *)
Theorem get_congestion_level_monotone v w :
  v <= w ->
  (Dashboard.level_rank (Dashboard.get_congestion_level v)
   <= Dashboard.level_rank (Dashboard.get_congestion_level w))%nat.
Proof.
  intros Hvw.
  destruct (get_congestion_level_cases v)
    as [[Hv ->]|[(Hv1 & Hv2 & ->)|[(Hv1 & Hv2 & ->)|[Hv ->]]]];
    destruct (get_congestion_level_cases w)
      as [[Hw ->]|[(Hw1 & Hw2 & ->)|[(Hw1 & Hw2 & ->)|[Hw ->]]]];
    first [ exfalso; lra | vm_compute; lia ].
Qed.

Lemma get_congestion_level_monotone_witness :
  9 <= 31 /\
  (Dashboard.level_rank (Dashboard.get_congestion_level 9)
   <= Dashboard.level_rank (Dashboard.get_congestion_level 31))%nat.
Proof.
  assert (H : 9 <= 31) by (vm_compute; discriminate).
  split; [exact H|].
  exact (get_congestion_level_monotone 9 31 H).
Defined.

Lemma max_count_spec vc :
  (forall k x, In (k, x) vc -> x <= Dashboard.max_count vc) /\
  (vc <> [] -> exists k, In (k, Dashboard.max_count vc) vc).
Proof.
  unfold Dashboard.max_count.
  destruct vc as [|[k0 x0] vc']; [split; [simpl; tauto | congruence]|].
  change (Py.max (Py.values ((k0, x0) :: vc')))
    with (Some (Py.max_from x0 (Py.values vc'))).
  destruct (max_from_ge (Py.values vc') x0) as [H0 Hl].
  split.
  - intros k x [H|H].
    + injection H as _ <-. exact H0.
    + apply Hl. change x with (snd (k, x)). now apply in_map.
  - intros _.
    destruct (max_from_in (Py.values vc') x0) as [H|H].
    + exists k0. left. now rewrite <- H.
    + unfold Py.values in H. apply in_map_iff in H.
      destruct H as ([k x] & Hx & Hin). simpl in Hx. subst x.
      exists k. now right.
Qed.

Lemma keys_in_getitem {V : Type} (d : list (string * V)) k v :
  NoDup (Py.keys d) -> (In (k, v) d <-> Py.getitem d k = Some v).
Proof.
  intros Hnd. split; [now apply in_getitem | apply getitem_in].
Qed.

(** X9.  When the counts are keyed by the directions of [VIDEO_PATHS], the
    mode in the status panel is EMERGENCY exactly when the badge of some
    direction is CRITICAL, and NORMAL exactly when every badge is LOW or
    MEDIUM. *)
Theorem system_mode_agrees_with_badges vehicle_counts :
  Py.keys vehicle_counts = Py.keys Config.VIDEO_PATHS ->
  (Dashboard.system_mode vehicle_counts = "EMERGENCY"%string <->
   exists d, In d (Py.keys Config.VIDEO_PATHS) /\
             Dashboard.badge_level vehicle_counts d = "CRITICAL"%string) /\
  (Dashboard.system_mode vehicle_counts = "NORMAL"%string <->
   forall d, In d (Py.keys Config.VIDEO_PATHS) ->
             Dashboard.badge_level vehicle_counts d = "LOW"%string \/
             Dashboard.badge_level vehicle_counts d = "MEDIUM"%string).
Proof.
  intros Hkeys.
  assert (Hnd : NoDup (Py.keys vehicle_counts)).
  { rewrite Hkeys. repeat constructor; simpl; intuition discriminate. }
  assert (Hne : vehicle_counts <> []).
  { intros E. rewrite E in Hkeys. discriminate. }
  destruct (max_count_spec vehicle_counts) as [Hge Hin].
  destruct (Hin Hne) as (km & Hkm).
  (* the value a badge is computed from *)
  assert (Hget : forall d x, In (d, x) vehicle_counts ->
                             PyDict.get vehicle_counts d 0 = x).
  { intros d x Hd. unfold PyDict.get.
    now rewrite (in_getitem _ _ _ Hnd Hd). }
  assert (Hval : forall d, In d (Py.keys Config.VIDEO_PATHS) ->
                 exists x, In (d, x) vehicle_counts).
  { intros d Hd. rewrite <- Hkeys in Hd.
    unfold Py.keys in Hd. apply in_map_iff in Hd.
    destruct Hd as ([k x] & Hk & Hd). simpl in Hk. subst k. eauto. }
  assert (Hkey : forall d x, In (d, x) vehicle_counts ->
                             In d (Py.keys Config.VIDEO_PATHS)).
  { intros d x Hd. rewrite <- Hkeys.
    change d with (fst (d, x)). now apply in_map. }
  set (m := Dashboard.max_count vehicle_counts) in *.
  unfold Dashboard.system_mode, Dashboard.badge_level. fold m.
  change (inject_Z Config.CONGESTION_HIGH) with 30.
  change (inject_Z Config.CONGESTION_MEDIUM) with 20.
  split.
  - split.
    + intros Hmode.
      destruct (Qle_bool 30 m) eqn:E.
      2:{ destruct (Qle_bool 20 m); discriminate. }
      apply Qle_bool_iff in E.
      exists km. split; [eapply Hkey; eassumption|].
      rewrite (Hget _ _ Hkm).
      destruct (get_congestion_level_cases m)
        as [[H _]|[(_ & H & _)|[(_ & H & _)|[_ H]]]];
        [exfalso; lra | exfalso; lra | exfalso; lra | exact H].
    + intros (d & Hd & Hlevel).
      destruct (Hval d Hd) as (x & Hx).
      rewrite (Hget _ _ Hx) in Hlevel.
      assert (H30 : 30 <= x).
      { destruct (get_congestion_level_cases x)
          as [[_ H]|[(_ & _ & H)|[(_ & _ & H)|[H _]]]];
          [rewrite H in Hlevel; discriminate
          |rewrite H in Hlevel; discriminate
          |rewrite H in Hlevel; discriminate
          |exact H]. }
      assert (E : Qle_bool 30 m = true).
      { apply Qle_bool_iff. eapply Qle_trans; [exact H30|].
        eapply Hge. eassumption. }
      now rewrite E.
  - split.
    + intros Hmode d Hd.
      destruct (Qle_bool 30 m) eqn:E30; [discriminate|].
      destruct (Qle_bool 20 m) eqn:E20; [discriminate|].
      assert (Hm : m < 20).
      { apply Qnot_le_lt. intros H. apply Qle_bool_iff in H. congruence. }
      destruct (Hval d Hd) as (x & Hx).
      rewrite (Hget _ _ Hx).
      pose proof (Hge _ _ Hx) as Hxm.
      destruct (get_congestion_level_cases x)
        as [[_ H]|[(_ & _ & H)|[(H & _)|[H _]]]];
        [now left | now right | exfalso; lra | exfalso; lra].
    + intros Hall.
      assert (Hd : In km (Py.keys Config.VIDEO_PATHS))
        by (eapply Hkey; eassumption).
      specialize (Hall km Hd). rewrite (Hget _ _ Hkm) in Hall.
      assert (Hm : m < 20).
      { destruct (get_congestion_level_cases m)
          as [[H _]|[(_ & H & _)|[(_ & _ & H)|[_ H]]]];
          [lra | exact H | | ];
          rewrite H in Hall; destruct Hall; discriminate. }
      assert (E30 : Qle_bool 30 m = false).
      { destruct (Qle_bool 30 m) eqn:E; [|reflexivity].
        apply Qle_bool_iff in E. exfalso. lra. }
      assert (E20 : Qle_bool 20 m = false).
      { destruct (Qle_bool 20 m) eqn:E; [|reflexivity].
        apply Qle_bool_iff in E. exfalso. lra. }
      now rewrite E30, E20.
Qed.

Lemma system_mode_agrees_with_badges_witness :
  let vc := [("NORTH", 31); ("EAST", 5); ("SOUTH", 12); ("WEST", 0)]%string in
  Py.keys vc = Py.keys Config.VIDEO_PATHS /\
  Dashboard.system_mode vc = "EMERGENCY"%string /\
  exists d, In d (Py.keys Config.VIDEO_PATHS) /\
            Dashboard.badge_level vc d = "CRITICAL"%string.
Proof.
  intros vc.
  assert (Hk : Py.keys vc = Py.keys Config.VIDEO_PATHS) by reflexivity.
  destruct (system_mode_agrees_with_badges vc Hk) as [[Hto _] _].
  assert (Hm : Dashboard.system_mode vc = "EMERGENCY"%string) by reflexivity.
  split; [exact Hk|]. split; [exact Hm|]. exact (Hto Hm).
Defined.

Lemma Qfloor_unique x z :
  inject_Z z <= x -> x < inject_Z (z + 1) -> Qfloor x = z.
Proof.
  intros Hlo Hhi.
  assert (H1 : (z <= Qfloor x)%Z).
  { rewrite <- (Qfloor_Z z). now apply Qfloor_resp_le. }
  assert (H2 : (Qfloor x < z + 1)%Z).
  { rewrite Zlt_Qlt. eapply Qle_lt_trans; [apply Qfloor_le | exact Hhi]. }
  lia.
Qed.

Lemma int_comp x y : 0 <= x -> x == y -> Py.int x = Py.int y.
Proof.
  intros Hx Hxy.
  rewrite (int_floor x Hx), (int_floor y) by (rewrite <- Hxy; exact Hx).
  now rewrite Hxy.
Qed.


Lemma int_add_one x : 0 <= x -> Py.int (x + 1) = (Py.int x + 1)%Z.
Proof.
  intros Hx.
  rewrite (int_floor x Hx), (int_floor (x + 1)) by lra.
  apply Qfloor_unique.
  - rewrite inject_Z_plus. change (inject_Z 1) with 1.
    pose proof (Qfloor_le x). lra.
  - rewrite !inject_Z_plus. pose proof (Qlt_floor x) as H.
    rewrite inject_Z_plus in H. change (inject_Z 1) with 1 in *. lra.
Qed.

(** X10.  The badge of a critical level (and of any level name other than
    LOW, MEDIUM, HIGH) flashes: half a second later the blink flag has
    toggled and the fill colour has changed, one second later the colour
    is back; the three other levels have a colour that ignores the
    clock. *)
Theorem critical_badge_flashes level t :
  0 <= t ->
  level <> "LOW"%string -> level <> "MEDIUM"%string ->
  level <> "HIGH"%string ->
  Dashboard.blink (t + (1 # 2)) = (1 - Dashboard.blink t)%Z /\
  Dashboard.badge_color level (t + (1 # 2)) <> Dashboard.badge_color level t /\
  Dashboard.badge_color level (t + 1) = Dashboard.badge_color level t /\
  forall steady t1 t2,
    steady = "LOW"%string \/ steady = "MEDIUM"%string \/
    steady = "HIGH"%string ->
    Dashboard.badge_color steady t1 = Dashboard.badge_color steady t2.
Proof.
  intros Ht Hl Hm Hh.
  assert (Hhalf : Py.int ((t + (1 # 2)) * 2) = (Py.int (t * 2) + 1)%Z).
  { rewrite <- int_add_one by lra. apply int_comp; [lra | ring]. }
  assert (Hone : Py.int ((t + 1) * 2) = (Py.int (t * 2) + 1 + 1)%Z).
  { rewrite <- int_add_one by lra.
    rewrite <- int_add_one by (pose proof (int_floor (t * 2)); lra).
    apply int_comp; [lra | ring]. }
  assert (Hb : Dashboard.blink (t + (1 # 2)) = (1 - Dashboard.blink t)%Z).
  { unfold Dashboard.blink. rewrite Hhalf.
    pose proof (Z.mod_pos_bound (Py.int (t * 2)) 2).
    pose proof (Z.mod_pos_bound (Py.int (t * 2) + 1) 2).
    pose proof (Z.div_mod (Py.int (t * 2)) 2).
    pose proof (Z.div_mod (Py.int (t * 2) + 1) 2). lia. }
  assert (Hb1 : Dashboard.blink (t + 1) = Dashboard.blink t).
  { unfold Dashboard.blink. rewrite Hone.
    pose proof (Z.mod_pos_bound (Py.int (t * 2)) 2).
    pose proof (Z.mod_pos_bound (Py.int (t * 2) + 1 + 1) 2).
    pose proof (Z.div_mod (Py.int (t * 2)) 2).
    pose proof (Z.div_mod (Py.int (t * 2) + 1 + 1) 2). lia. }
  assert (Hrange : (0 <= Dashboard.blink t < 2)%Z)
    by (unfold Dashboard.blink; apply Z.mod_pos_bound; lia).
  apply String.eqb_neq in Hl, Hm, Hh.
  split; [exact Hb|].
  unfold Dashboard.badge_color. rewrite Hl, Hm, Hh, Hb, Hb1.
  split; [|split; [reflexivity|]].
  - destruct (Z.eqb_spec (Dashboard.blink t) 0) as [E|E];
      destruct (Z.eqb_spec (1 - Dashboard.blink t) 0) as [E'|E'];
      try lia; discriminate.
  - intros steady t1 t2 [-> | [-> | ->]]; reflexivity.
Qed.

Lemma critical_badge_flashes_witness :
  0 <= 3 # 4 /\
  Dashboard.blink ((3 # 4) + (1 # 2)) = (1 - Dashboard.blink (3 # 4))%Z /\
  Dashboard.badge_color "CRITICAL" ((3 # 4) + (1 # 2))
    <> Dashboard.badge_color "CRITICAL" (3 # 4).
Proof.
  assert (H : 0 <= 3 # 4) by (vm_compute; discriminate).
  destruct (critical_badge_flashes "CRITICAL" (3 # 4) H)
    as (H1 & H2 & _); try discriminate.
  repeat split; assumption.
Defined.

(** X11.  The filled length of a density bar stays inside the outline when
    the value lies between 0 and the scale maximum; a scale maximum that
    is not positive gives an empty bar instead of a division by zero. *)
Theorem density_bar_fill_bounds value max_value :
  0 <= value -> value <= max_value ->
  (0 <= Dashboard.bar_filled value max_value <= Config.BAR_WIDTH)%Z /\
  (forall v m, m <= 0 -> Dashboard.bar_filled v m = 0%Z).
Proof.
  intros Hv Hvm. split.
  - unfold Dashboard.bar_filled.
    destruct (Qlt_bool 0 max_value) eqn:E; [|vm_compute; split; discriminate].
    apply Qlt_bool_iff in E.
    assert (H0 : 0 <= value / max_value).
    { apply Qle_shift_div_l; [assumption | lra]. }
    assert (H1 : value / max_value <= 1).
    { apply Qle_shift_div_r; [assumption | lra]. }
    change (inject_Z Config.BAR_WIDTH) with 200.
    assert (Hlo : (Py.int 0 <= Py.int (value / max_value * 200))%Z)
      by (apply int_monotone; lra).
    assert (Hhi : (Py.int (value / max_value * 200) <= Py.int 200)%Z)
      by (apply int_monotone; lra).
    change (Py.int 0) with 0%Z in Hlo. change (Py.int 200) with 200%Z in Hhi.
    unfold Config.BAR_WIDTH. lia.
  - intros v m Hm. unfold Dashboard.bar_filled.
    destruct (Qlt_bool 0 m) eqn:E; [|reflexivity].
    apply Qlt_bool_iff in E. exfalso. lra.
Qed.

Lemma density_bar_fill_bounds_witness :
  0 <= 7 /\ 7 <= 30 /\
  (0 <= Dashboard.bar_filled 7 30 <= Config.BAR_WIDTH)%Z.
Proof.
  assert (H1 : 0 <= 7) by (vm_compute; discriminate).
  assert (H2 : 7 <= 30) by (vm_compute; discriminate).
  split; [exact H1|]. split; [exact H2|].
  exact (proj1 (density_bar_fill_bounds 7 30 H1 H2)).
Defined.



(** ** More on the controller *)

Lemma update_loop_app alpha pre : forall sc rest,
  (forall d, In d (Py.keys pre) -> In d (Py.keys sc)) ->
  update_loop alpha sc (pre ++ rest)
  = update_loop alpha (fst (update_loop alpha sc pre)) rest.
Proof.
  induction pre as [|[k n] pre IH]; intros sc rest Hk; simpl; [reflexivity|].
  destruct (Py.getitem sc k) as [old|] eqn:E.
  - apply IH. intros d Hd. rewrite keys_setitem. apply Hk. now right.
  - exfalso. assert (H : In k (Py.keys sc)) by (apply Hk; now left).
    apply getitem_in_keys in H. contradiction.
Qed.

(** X1.  A raw-counts dict that reaches a key unknown to the controller
    makes [update_counts] raise [KeyError] for that key; the counts given
    before it have been smoothed as by a call with those alone, the
    counts given after it are not applied. *)
Theorem update_counts_unknown_key c pre k n post :
  (forall d, In d (Py.keys pre) -> In d (Py.keys (smooth_counts c))) ->
  ~ In k (Py.keys (smooth_counts c)) ->
  update_counts c (pre ++ (k, n) :: post)
  = Raised (object_after (update_counts c pre)) (Py.KeyError k).
Proof.
  intros Hpre Hk.
  rewrite update_counts_object. unfold update_counts.
  rewrite update_loop_app by assumption. simpl.
  destruct (Py.getitem (fst (update_loop (ALPHA c) (smooth_counts c) pre)) k)
    eqn:E; [|reflexivity].
  exfalso. apply Hk. rewrite <- (update_loop_keys (ALPHA c) pre).
  apply getitem_in_keys. congruence.
Qed.

Lemma update_counts_unknown_key_witness :
  let pre := [("NORTH", 12%Z)]%string in
  let post := [("EAST", 3%Z)]%string in
  (forall d, In d (Py.keys pre) ->
             In d (Py.keys (smooth_counts default_controller))) /\
  ~ In "UP"%string (Py.keys (smooth_counts default_controller)) /\
  update_counts default_controller (pre ++ ("UP"%string, 1%Z) :: post)
  = Raised (object_after (update_counts default_controller pre))
           (Py.KeyError "UP").
Proof.
  intros pre post.
  assert (H1 : forall d, In d (Py.keys pre) ->
                         In d (Py.keys (smooth_counts default_controller))).
  { intros d [<-|[]]. simpl. tauto. }
  assert (H2 : ~ In "UP"%string (Py.keys (smooth_counts default_controller))).
  { simpl. intuition discriminate. }
  split; [exact H1|]. split; [exact H2|].
  exact (update_counts_unknown_key default_controller pre "UP" 1 post H1 H2).
Defined.

(** What a selection leaves in the fairness fields. *)
Lemma select_phase_fields c :
  smooth_counts c <> [] ->
  (0 <= consecutive_count c)%Z ->
  exists c' d,
    select_phase c = Returned c' tt /\
    In d (Py.keys (smooth_counts c)) /\
    current_green c' = Some d /\ last_green c' = Some d /\
    (1 <= consecutive_count c')%Z /\
    ((1 <= MAX_CONSECUTIVE c)%Z ->
     (consecutive_count c <= MAX_CONSECUTIVE c)%Z ->
     (consecutive_count c' <= MAX_CONSECUTIVE c)%Z).
Proof.
  intros Hne Hcc.
  destruct (select_phase_returns c Hne)
    as (a & c' & x & Hcand & Hsel & Hcur & Hlast & Hcount & Hx & _).
  cbv zeta in Hcur, Hlast, Hcount, Hx.
  exists c'. eexists. split; [exact Hsel|].
  split; [apply getitem_in_keys; rewrite Hx; discriminate|].
  split; [exact Hcur|]. split; [exact Hlast|].
  rewrite Hcount.
  destruct (eq_last (last_green c) a);
    match goal with
    | |- context [(?m <? ?n)%Z] => destruct (Z.ltb_spec m n)
    end; split; lia.
Qed.

(** The fairness fields along a sequence of calls. *)
Lemma run_fairness_fields ks : forall c0,
  Py.keys (smooth_counts c0) = DIRECTIONS ->
  current_green c0 = last_green c0 /\
  (0 <= consecutive_count c0)%Z /\
  (last_green c0 = None -> consecutive_count c0 = 0%Z) /\
  (forall d, last_green c0 = Some d ->
             In d DIRECTIONS /\ (1 <= consecutive_count c0)%Z) /\
  ((1 <= MAX_CONSECUTIVE c0)%Z ->
   (consecutive_count c0 <= MAX_CONSECUTIVE c0)%Z) ->
  current_green (run c0 ks) = last_green (run c0 ks) /\
  (0 <= consecutive_count (run c0 ks))%Z /\
  (last_green (run c0 ks) = None -> consecutive_count (run c0 ks) = 0%Z) /\
  (forall d, last_green (run c0 ks) = Some d ->
             In d DIRECTIONS /\ (1 <= consecutive_count (run c0 ks))%Z) /\
  ((1 <= MAX_CONSECUTIVE c0)%Z ->
   (consecutive_count (run c0 ks) <= MAX_CONSECUTIVE c0)%Z).
Proof.
  induction ks as [|k ks IH]; intros c0 Hk Hinv; [exact Hinv|].
  change (run c0 (k :: ks)) with (run (step c0 k) ks).
  destruct (step_preserves c0 k) as (Hk' & _ & _ & _ & _ & Hm').
  rewrite <- Hm'. apply IH; [congruence|]. rewrite Hm'.
  destruct Hinv as (Hcl & H0 & Hnone & Hsome & Hle).
  destruct k as [raw|t t']; simpl.
  - pose proof (update_counts_fields c0 raw) as Hf. simpl in Hf.
    destruct Hf as (_ & _ & _ & _ & _ & -> & _ & -> & -> & _).
    auto.
  - rewrite decide_signal_object.
    destruct (phase_over c0 t); [|auto].
    assert (Hne : smooth_counts c0 <> [])
      by (intros E; rewrite E in Hk; discriminate).
    destruct (select_phase_fields c0 Hne H0)
      as (c' & d & Hsel & Hd & Hcur & Hlast & H1 & Hbound).
    rewrite Hsel. simpl. rewrite Hcur, Hlast.
    split; [reflexivity|]. split; [lia|].
    split; [discriminate|]. split.
    + intros d' E. injection E as <-. rewrite Hk in Hd.
      split; [exact Hd | exact H1].
    + intros Hm. apply Hbound; auto.
Qed.

Lemma init_fairness_fields min_green max_green alpha max_consecutive ks :
  let c := run (init min_green max_green alpha max_consecutive) ks in
  Py.keys (smooth_counts c) = DIRECTIONS /\
  current_green c = last_green c /\
  (last_green c = None -> consecutive_count c = 0%Z) /\
  (forall d, last_green c = Some d ->
             In d DIRECTIONS /\ (1 <= consecutive_count c)%Z) /\
  ((1 <= max_consecutive)%Z -> (consecutive_count c <= max_consecutive)%Z).
Proof.
  intros c.
  destruct (run_preserves ks (init min_green max_green alpha max_consecutive))
    as (Hkeys & _).
  fold c in Hkeys. split; [exact Hkeys|].
  destruct (run_fairness_fields ks
              (init min_green max_green alpha max_consecutive))
    as (H1 & _ & H3 & H4 & H5).
  - reflexivity.
  - simpl. repeat split; try discriminate; intros; lia.
  - fold c in H1, H3, H4, H5. simpl in H5. auto.
Qed.

(** X2.  In every state reached from the constructor, whatever the calls
    and their arguments: [smooth_counts] has the four keys NORTH, EAST,
    SOUTH, WEST in this order, [green_end_time] is 0, the configuration is
    the one given, [current_green] and [last_green] are equal, both [None]
    with a consecutive count of 0 or both a known direction with a count
    of at least 1, and the count does not exceed a limit of at least 1. *)
Theorem reachable_state min_green max_green alpha max_consecutive ks :
  let c := run (init min_green max_green alpha max_consecutive) ks in
  Py.keys (smooth_counts c) = DIRECTIONS /\
  green_end_time c = 0 /\
  MIN_GREEN c = min_green /\ MAX_GREEN c = max_green /\
  ALPHA c = alpha /\ MAX_CONSECUTIVE c = max_consecutive /\
  current_green c = last_green c /\
  (last_green c = None -> consecutive_count c = 0%Z) /\
  (forall d, last_green c = Some d ->
             In d DIRECTIONS /\ (1 <= consecutive_count c)%Z) /\
  ((1 <= max_consecutive)%Z -> (consecutive_count c <= max_consecutive)%Z).
Proof.
  intros c.
  destruct (run_preserves ks (init min_green max_green alpha max_consecutive))
    as (Hkeys & Hend & Hmin & Hmax & Halpha & Hmc).
  fold c in Hkeys, Hend, Hmin, Hmax, Halpha, Hmc.
  repeat (split; [assumption|]).
  destruct (init_fairness_fields min_green max_green alpha max_consecutive ks)
    as (_ & H). exact H.
Qed.

Lemma reachable_state_witness :
  let c := run (init 15 90 (7 # 10) 2)
               [UpdateCounts scenario_A_counts; DecideSignal 1000 1000;
                DecideSignal 1001 1001; DecideSignal 1002 1002] in
  Py.keys (smooth_counts c) = DIRECTIONS /\
  green_end_time c = 0 /\
  current_green c = last_green c /\
  (consecutive_count c <= 2)%Z.
Proof.
  intros c.
  destruct (reachable_state 15 90 (7 # 10) 2
              [UpdateCounts scenario_A_counts; DecideSignal 1000 1000;
               DecideSignal 1001 1001; DecideSignal 1002 1002])
    as (H1 & H2 & _ & _ & _ & _ & H3 & _ & _ & H4).
  fold c in H1, H2, H3, H4.
  repeat split; try assumption. apply H4. lia.
Defined.

Lemma remaining_at_nonneg c t : (0 <= remaining_at c t)%Z.
Proof.
  unfold remaining_at.
  destruct (Z.ltb_spec (Py.int (green_end_time c - t)) 0); lia.
Qed.

(** X3.  On every state reached from a constructor given
    [0 <= alpha < 1], by calls whose raw counts lie between 0 and 2^53
    (the integers that convert to [float] exactly, so that every smoothed
    count stays finite), at any clock readings, [decide_signal] returns
    without raising; the direction it returns is one of NORTH, EAST,
    SOUTH, WEST, it is the [current_green] that the call leaves, its
    smoothed count is not negative, and the remaining time returned is not
    negative. *)
Theorem decide_signal_returns_direction min_green max_green alpha
  max_consecutive ks t t' :
  0 <= alpha -> alpha < 1 ->
  (forall raw k n, In (UpdateCounts raw) ks -> In (k, n) raw ->
                   (0 <= n < 2 ^ 53)%Z) ->
  let c := run (init min_green max_green alpha max_consecutive) ks in
  exists c' d r x,
    decide_signal c t t' = Returned c' (Some d, r) /\
    In d DIRECTIONS /\
    current_green c' = Some d /\
    (0 <= r)%Z /\
    Py.getitem (smooth_counts c) d = Some x /\
    0 <= x.
Proof.
  intros Ha0 Ha1 Hraw c.
  destruct (init_fairness_fields min_green max_green alpha max_consecutive ks)
    as (Hkeys & Hcl & Hnone & Hsome & _).
  fold c in Hkeys, Hcl, Hnone, Hsome.
  (* the smoothed count of a known direction is not negative *)
  assert (Hdemand : forall d, In d DIRECTIONS ->
            exists x, Py.getitem (smooth_counts c) d = Some x /\ 0 <= x).
  { intros d Hd.
    destruct (smoothing_bound
                (init min_green max_green alpha max_consecutive) ks d 0)
      as (x & Hx & Hx0 & _); try assumption.
    - intros raw k n Hin Hkn. apply (Hraw raw k n Hin Hkn).
    - simpl in Hd. destruct Hd as [<-|[<-|[<-|[<-|[]]]]]; reflexivity.
    - apply Qle_refl.
    - exists x. auto. }
  assert (Hfinish : forall c' d r,
            decide_signal c t t' = Returned c' (Some d, r) ->
            In d DIRECTIONS -> current_green c' = Some d -> (0 <= r)%Z ->
            exists c'' d' r' x,
              decide_signal c t t' = Returned c'' (Some d', r') /\
              In d' DIRECTIONS /\ current_green c'' = Some d' /\
              (0 <= r')%Z /\
              Py.getitem (smooth_counts c) d' = Some x /\ 0 <= x).
  { intros c' d r Hdec Hd Hg Hr.
    destruct (Hdemand d Hd) as (x & Hx & Hx0).
    exists c', d, r, x. auto 6. }
  unfold decide_signal in *.
  destruct (phase_over c t) eqn:Hover.
  - assert (Hne : smooth_counts c <> [])
      by (intros E; rewrite E in Hkeys; discriminate).
    destruct (select_phase_returns c Hne)
      as (a & c' & x & _ & Hsel & Hcur & _ & _ & Hx & _).
    cbv zeta in Hcur, Hx. rewrite Hsel, Hcur in *.
    eapply Hfinish; [reflexivity | | exact Hcur | apply remaining_at_nonneg].
    rewrite <- Hkeys. apply getitem_in_keys. rewrite Hx. discriminate.
  - unfold phase_over in Hover.
    destruct (current_green c) as [d|] eqn:Hg; [|discriminate].
    eapply Hfinish; [reflexivity | | exact Hg | apply remaining_at_nonneg].
    apply (Hsome d). congruence.
Qed.

Lemma decide_signal_returns_direction_witness :
  let ks := [UpdateCounts scenario_A_counts; DecideSignal 1000 1000] in
  0 <= 7 # 10 /\ 7 # 10 < 1 /\
  (forall raw k n, In (UpdateCounts raw) ks -> In (k, n) raw ->
                   (0 <= n < 2 ^ 53)%Z) /\
  exists c' d r x,
    decide_signal (run (init 15 90 (7 # 10) 2) ks) 1001 1001
    = Returned c' (Some d, r) /\
    In d DIRECTIONS /\
    current_green c' = Some d /\
    (0 <= r)%Z /\
    Py.getitem (smooth_counts (run (init 15 90 (7 # 10) 2) ks)) d = Some x /\
    0 <= x.
Proof.
  intros ks.
  assert (H0 : 0 <= 7 # 10) by (vm_compute; discriminate).
  assert (H1 : 7 # 10 < 1) by reflexivity.
  assert (H2 : forall raw k n, In (UpdateCounts raw) ks -> In (k, n) raw ->
                               (0 <= n < 2 ^ 53)%Z).
  { intros raw k n Hin Hkn.
    assert (Hraw : raw = scenario_A_counts).
    { simpl in Hin. destruct Hin as [H|[H|[]]]; congruence. }
    subst raw. simpl in Hkn.
    destruct Hkn as [H|[H|[H|[H|[]]]]]; injection H as _ <-; lia. }
  repeat (split; [assumption|]).
  exact (decide_signal_returns_direction 15 90 (7 # 10) 2 ks 1001 1001
           H0 H1 H2).
Defined.

(** Searching a descending list after an insertion. *)
Lemma find_insert_desc p x s :
  descending s ->
  find p (Py.insert_desc x s) =
  if p x then
    match find p s with
    | Some b => if Qle_bool (snd b) (snd x) then Some x else Some b
    | None => Some x
    end
  else find p s.
Proof.
  induction 1 as [|y s Hy Hs IH]; simpl.
  - destruct (p x); reflexivity.
  - destruct (Qle_bool (snd y) (snd x)) eqn:E; simpl.
    + destruct (p x) eqn:Ex; [|reflexivity].
      apply Qle_bool_iff in E.
      destruct (p y) eqn:Epy.
      * now rewrite (proj2 (Qle_bool_iff _ _) E).
      * destruct (find p s) as [b|] eqn:Ef; [|reflexivity].
        destruct (find_some _ _ Ef) as [Hb _].
        assert (Hbx : snd b <= snd x)
          by (eapply Qle_trans; [apply Hy; exact Hb | exact E]).
        now rewrite (proj2 (Qle_bool_iff _ _) Hbx).
    + destruct (p y) eqn:Epy.
      * destruct (p x); [now rewrite E | reflexivity].
      * exact IH.
Qed.

(** The first item of the sorted view that passes a test is, in the
    original order, the first of the items that pass it with the greatest
    value. *)
Lemma find_sorted_first p l : forall a,
  find p (Py.sorted_desc l) = Some a ->
  exists i,
    nth_error l i = Some a /\
    forall j b, nth_error l j = Some b -> p b = true ->
      snd b <= snd a /\ ((j < i)%nat -> snd b < snd a).
Proof.
  induction l as [|x l IH]; intros a; simpl; [discriminate|].
  rewrite find_insert_desc by apply sorted_desc_descending.
  destruct (p x) eqn:Ex.
  - destruct (find p (Py.sorted_desc l)) as [b|] eqn:Ef.
    + destruct (Qle_bool (snd b) (snd x)) eqn:E; intros Ha;
        injection Ha as <-.
      * apply Qle_bool_iff in E. exists O. split; [reflexivity|].
        intros [|j] c Hc Hpc; simpl in Hc.
        -- injection Hc as <-. split; [apply Qle_refl | lia].
        -- split; [|lia].
           eapply Qle_trans; [|exact E].
           apply (find_descending p _ b (sorted_desc_descending l) Ef);
             [|exact Hpc].
           apply sorted_desc_in. eapply nth_error_In. exact Hc.
      * assert (Hlt : snd x < snd b).
        { apply Qnot_le_lt. intros H. apply Qle_bool_iff in H. congruence. }
        destruct (IH b eq_refl) as (i & Hi & Hmax).
        exists (S i). split; [exact Hi|].
        intros [|j] c Hc Hpc; simpl in Hc.
        -- injection Hc as <-. split; [now apply Qlt_le_weak | auto].
        -- destruct (Hmax j c Hc Hpc) as [H1 H2].
           split; [exact H1 | intros; apply H2; lia].
    + intros Ha. injection Ha as <-. exists O. split; [reflexivity|].
      intros [|j] c Hc Hpc; simpl in Hc.
      * injection Hc as <-. split; [apply Qle_refl | lia].
      * exfalso.
        assert (Hin : In c (Py.sorted_desc l))
          by (apply sorted_desc_in; eapply nth_error_In; exact Hc).
        pose proof (find_none _ _ Ef _ Hin). congruence.
  - intros Ha. destruct (IH a Ha) as (i & Hi & Hmax).
    exists (S i). split; [exact Hi|].
    intros [|j] c Hc Hpc; simpl in Hc.
    + injection Hc as <-. congruence.
    + destruct (Hmax j c Hc Hpc) as [H1 H2].
      split; [exact H1 | intros; apply H2; lia].
Qed.

(** X4.  The direction taken by the fairness override is, in the order of
    the dict, the first direction other than [last_green] whose smoothed
    count is the greatest among those: equal counts are resolved by the
    order NORTH, EAST, SOUTH, WEST, because the sort is stable. *)
Theorem override_first_maximum sc last selected :
  (exists k, In k (Py.keys sc) /\ last <> Some k) ->
  exists i d x,
    reselect sc last selected = d /\
    nth_error sc i = Some (d, x) /\
    last <> Some d /\
    forall j k y, nth_error sc j = Some (k, y) -> last <> Some k ->
      y <= x /\ ((j < i)%nat -> y < x).
Proof.
  intros (k & Hk & Hne). unfold reselect.
  set (p := fun it : string * Q => negb (eq_last last (fst it))).
  assert (Hp : forall d y, p (d, y) = true <-> last <> Some d).
  { intros d y. unfold p. simpl. rewrite negb_true_iff.
    destruct (eq_last last d) eqn:E.
    - apply (proj1 (eq_last_true _ _)) in E. split; [discriminate | tauto].
    - split; [|reflexivity]. intros _ H.
      apply (proj2 (eq_last_true _ _)) in H. congruence. }
  destruct (find p (Py.sorted_desc sc)) as [[d x]|] eqn:Ef.
  - destruct (find_sorted_first p sc (d, x) Ef) as (i & Hi & Hmax).
    destruct (find_some _ _ Ef) as [_ Hpd].
    exists i, d, x. split; [reflexivity|]. split; [exact Hi|].
    split; [now apply (Hp d x)|].
    intros j k' y Hj Hk'.
    apply (Hmax j (k', y) Hj). now apply Hp.
  - exfalso.
    unfold Py.keys in Hk. apply in_map_iff in Hk.
    destruct Hk as ([k' v] & Hkv & Hin). simpl in Hkv. subst k'.
    apply (proj2 (sorted_desc_in _ _)) in Hin.
    pose proof (find_none _ _ Ef _ Hin) as Hnone.
    assert (p (k, v) = true) by now apply Hp. congruence.
Qed.

Lemma override_first_maximum_witness :
  let sc := [("NORTH", 9); ("EAST", 4); ("SOUTH", 6); ("WEST", 6)]%string in
  (exists k, In k (Py.keys sc) /\ Some "NORTH"%string <> Some k) /\
  reselect sc (Some "NORTH"%string) "NORTH" = "SOUTH"%string /\
  exists i d x,
    reselect sc (Some "NORTH"%string) "NORTH" = d /\
    nth_error sc i = Some (d, x) /\
    Some "NORTH"%string <> Some d /\
    forall j k y, nth_error sc j = Some (k, y) ->
      Some "NORTH"%string <> Some k ->
      y <= x /\ ((j < i)%nat -> y < x).
Proof.
  intros sc.
  assert (H : exists k, In k (Py.keys sc) /\ Some "NORTH"%string <> Some k).
  { exists "EAST"%string. split; [simpl; tauto | discriminate]. }
  split; [exact H|]. split; [reflexivity|].
  exact (override_first_maximum sc (Some "NORTH"%string) "NORTH" H).
Defined.

(** X5.  [n] successive calls of [update_counts] with the same raw count
    [r] for a direction bring its smoothed count from [x0] to
    [r + ALPHA^n * (x0 - r)]; with [r = 0] the count decays as
    [ALPHA^n * x0]. *)
Theorem repeated_update_closed_form c raw_counts d r x0 n :
  NoDup (Py.keys raw_counts) ->
  (forall k, In k (Py.keys raw_counts) -> In k (Py.keys (smooth_counts c))) ->
  Py.getitem raw_counts d = Some r ->
  Py.getitem (smooth_counts c) d = Some x0 ->
  exists x,
    Py.getitem (smooth_counts (run c (repeat (UpdateCounts raw_counts) n))) d
      = Some x /\
    x == inject_Z r + Qpow (ALPHA c) n * (x0 - inject_Z r).
Proof.
  intros Hnd Hk Hr. revert c x0 Hk.
  induction n as [|n IH]; intros c x0 Hk Hx.
  - exists x0. split; [exact Hx|]. simpl. ring.
  - change (run c (repeat (UpdateCounts raw_counts) (S n)))
      with (run (step c (UpdateCounts raw_counts))
                (repeat (UpdateCounts raw_counts) n)).
    destruct (step_preserves c (UpdateCounts raw_counts))
      as (Hkeys & _ & _ & _ & Halpha & _).
    assert (Hstep : Py.getitem
                      (smooth_counts (step c (UpdateCounts raw_counts))) d
                    = Some (ema (ALPHA c) x0 r)).
    { simpl. rewrite update_counts_object. simpl.
      now apply update_loop_ema. }
    destruct (IH (step c (UpdateCounts raw_counts)) (ema (ALPHA c) x0 r))
      as (x & Hx' & Hval).
    + intros k Hin. rewrite Hkeys. now apply Hk.
    + exact Hstep.
    + exists x. split; [exact Hx'|].
      rewrite Hval, Halpha. unfold ema. simpl. ring.
Qed.

Lemma repeated_update_closed_form_witness :
  let c := scenario_A in
  let raw := [("NORTH", 0%Z); ("EAST", 3%Z)]%string in
  NoDup (Py.keys raw) /\
  (forall k, In k (Py.keys raw) -> In k (Py.keys (smooth_counts c))) /\
  exists x,
    Py.getitem (smooth_counts (run c (repeat (UpdateCounts raw) 3))) "NORTH"
      = Some x /\
    x == inject_Z 0 + Qpow (ALPHA c) 3 * ((36 # 10) - inject_Z 0).
Proof.
  intros c raw.
  assert (H1 : NoDup (Py.keys raw)).
  { simpl. repeat constructor; simpl; intuition discriminate. }
  assert (H2 : forall k, In k (Py.keys raw) ->
                         In k (Py.keys (smooth_counts c))).
  { intros k. simpl. tauto. }
  split; [exact H1|]. split; [exact H2|].
  destruct (repeated_update_closed_form c raw "NORTH" 0
              (ema (7 # 10) 0 12) 3 H1 H2 eq_refl eq_refl)
    as (x & Hx & Hval).
  exists x. split; [exact Hx|]. rewrite Hval. reflexivity.
Defined.

(** X7.  In a state whose [green_end_time] lies after the clock reading (a
    state that the methods themselves never produce), [decide_signal]
    returns [current_green] and leaves the controller as it is; of two
    such calls, the one that reads the clock later returns a remaining
    time that is not greater, and never a negative one. *)
Theorem phase_in_progress_is_kept c d t1 t1' t2 t2' :
  current_green c = Some d ->
  t1 < green_end_time c -> t2 < green_end_time c -> t1' <= t2' ->
  exists r1 r2,
    decide_signal c t1 t1' = Returned c (Some d, r1) /\
    decide_signal c t2 t2' = Returned c (Some d, r2) /\
    (0 <= r2 <= r1)%Z.
Proof.
  intros Hg H1 H2 Ht.
  exists (remaining_at c t1'), (remaining_at c t2').
  split; [now apply decide_signal_active|].
  split; [now apply decide_signal_active|].
  split; [apply remaining_at_nonneg | now apply remaining_at_monotone].
Qed.

Lemma phase_in_progress_is_kept_witness :
  let c := mkController 15 90 (7 # 10) 2 (Some "NORTH"%string) 1015
             (Some "NORTH"%string) 1 15 (smooth_counts scenario_A) in
  current_green c = Some "NORTH"%string /\
  1001 < green_end_time c /\ 1002 < green_end_time c /\ 1001 <= 1002 /\
  exists r1 r2,
    decide_signal c 1001 1001 = Returned c (Some "NORTH"%string, r1) /\
    decide_signal c 1002 1002 = Returned c (Some "NORTH"%string, r2) /\
    (0 <= r2 <= r1)%Z.
Proof.
  intros c.
  assert (H0 : current_green c = Some "NORTH"%string) by reflexivity.
  assert (H1 : 1001 < green_end_time c) by reflexivity.
  assert (H2 : 1002 < green_end_time c) by reflexivity.
  assert (H3 : 1001 <= 1002) by (vm_compute; discriminate).
  repeat (split; [assumption|]).
  exact (phase_in_progress_is_kept c "NORTH" 1001 1001 1002 1002 H0 H1 H2 H3).
Defined.

(** ** The detector *)

Lemma detect_boxes_spec name_of classes boxes : forall acc,
  Detector.detect_boxes name_of classes boxes acc =
  ((fst acc
    + Z.of_nat (List.length (filter (Detector.is_vehicle classes) boxes)))%Z,
   snd acc ++
   map (fun b => Detector.to_detection name_of (Py.int (Detector.cls b)) b)
       (filter (Detector.is_vehicle classes) boxes)).
Proof.
  induction boxes as [|b boxes IH]; intros [n l]; simpl.
  - now rewrite Z.add_0_r, app_nil_r.
  - rewrite IH. unfold Detector.detect_box.
    destruct (Detector.is_vehicle classes b); simpl.
    + rewrite <- app_assoc. simpl. f_equal. lia.
    + reflexivity.
Qed.

Lemma detect_results_spec name_of classes results : forall acc,
  Detector.detect_results name_of classes results acc =
  ((fst acc
    + Z.of_nat
        (List.length
           (filter (Detector.is_vehicle classes) (List.concat results))))%Z,
   snd acc ++
   map (fun b => Detector.to_detection name_of (Py.int (Detector.cls b)) b)
       (filter (Detector.is_vehicle classes) (List.concat results))).
Proof.
  induction results as [|r results IH]; intros acc; simpl.
  - rewrite Z.add_0_r, app_nil_r. now destruct acc.
  - rewrite IH, detect_boxes_spec. simpl.
    rewrite filter_app, map_app, List.length_app, <- app_assoc.
    f_equal. lia.
Qed.

Lemma to_detection_class name_of c b :
  Detector.class_id (Detector.to_detection name_of c b) = c.
Proof.
  unfold Detector.to_detection.
  destruct (Detector.xyxy b) as [[[a1 b1] a2] b2]. reflexivity.
Qed.

Section DetectorFacts.

Context {model frame : Type} `{Detector.YOLO model frame}.

(** X13.  [detect] returns the detections of exactly the boxes, over all
    results and in their order, whose class id is one of
    [vehicle_classes]; the count it returns is the number of detections
    returned, so it is never negative and never more than the number of
    boxes; every detection carries a class id of [vehicle_classes]. *)
Theorem detect_counts_vehicles (self : Detector.VehicleDetector model)
  (f : frame) :
  let boxes :=
    List.concat (Detector.predict (Detector.detector_model self) f) in
  let vehicles :=
    filter (Detector.is_vehicle (Detector.vehicle_classes self)) boxes in
  snd (Detector.detect self f)
  = map (fun b => Detector.to_detection
                    (Detector.names (Detector.detector_model self))
                    (Py.int (Detector.cls b)) b) vehicles /\
  fst (Detector.detect self f)
  = Z.of_nat (List.length (snd (Detector.detect self f))) /\
  (0 <= fst (Detector.detect self f) <= Z.of_nat (List.length boxes))%Z /\
  Forall (fun d => In (Detector.class_id d) (Detector.vehicle_classes self))
         (snd (Detector.detect self f)).
Proof.
  intros boxes vehicles. unfold Detector.detect.
  rewrite detect_results_spec. simpl. fold boxes. fold vehicles.
  split; [reflexivity|]. split; [now rewrite List.length_map|].
  split.
  - pose proof (filter_length_le
                  (Detector.is_vehicle (Detector.vehicle_classes self)) boxes)
      as Hle.
    fold vehicles in Hle. lia.
  - apply Forall_forall. intros d Hd. apply in_map_iff in Hd.
    destruct Hd as (b & <- & Hb). rewrite to_detection_class.
    apply filter_In in Hb. destruct Hb as [_ Hb].
    unfold Detector.is_vehicle in Hb. apply existsb_exists in Hb.
    destruct Hb as (c & Hc & Heq). apply Z.eqb_eq in Heq. now rewrite Heq.
Qed.

End DetectorFacts.

(** ** The video manager *)

Lemma assign_fresh {V : Type} (d : list (string * V)) k v :
  ~ In k (Py.keys d) -> PyDict.assign d k v = d ++ [(k, v)].
Proof.
  induction d as [|[k' v'] d IH]; simpl; [reflexivity|].
  intros Hk. destruct (String.eqb k k') eqn:E.
  - apply String.eqb_eq in E. subst k'. exfalso. apply Hk. now left.
  - rewrite IH; [reflexivity|]. intros Hin. apply Hk. now right.
Qed.

Lemma keys_app {V : Type} (d1 d2 : list (string * V)) :
  Py.keys (d1 ++ d2) = Py.keys d1 ++ Py.keys d2.
Proof. apply map_app. Qed.

Lemma keys_map_snd {V W : Type} (g : string * V -> W) (d : list (string * V)) :
  Py.keys (map (fun it => (fst it, g it)) d) = Py.keys d.
Proof.
  unfold Py.keys. rewrite map_map. reflexivity.
Qed.

Section VideoFacts.

Context {capture frame : Type} `{Video.VideoCapture capture frame}.

Lemma load_loop_opened todo : forall caps,
  NoDup (Py.keys caps ++ Py.keys todo) ->
  (forall d p, In (d, p) todo -> Video.isOpened (Video.open p) = true) ->
  Video.load_loop todo caps
  = (caps ++ map (fun it => (fst it, Video.open (snd it))) todo, None).
Proof.
  induction todo as [|[d p] todo IH]; intros caps Hnd Hopen; simpl.
  - now rewrite app_nil_r.
  - rewrite (Hopen d p) by now left.
    assert (Hfresh : ~ In d (Py.keys caps)).
    { intros Hin. simpl in Hnd. apply NoDup_remove_2 in Hnd.
      apply Hnd. apply in_or_app. now left. }
    rewrite assign_fresh by assumption.
    rewrite IH.
    + now rewrite <- app_assoc.
    + rewrite keys_app. simpl. rewrite <- app_assoc. exact Hnd.
    + intros d' p' Hin. apply (Hopen d'). now right.
Qed.

Lemma load_loop_fails pre d p post : forall caps,
  NoDup (Py.keys caps ++ Py.keys pre) ->
  (forall d' p', In (d', p') pre -> Video.isOpened (Video.open p') = true) ->
  Video.isOpened (Video.open p) = false ->
  Video.load_loop (pre ++ (d, p) :: post) caps
  = (caps ++ map (fun it => (fst it, Video.open (snd it))) pre, Some p).
Proof.
  induction pre as [|[d0 p0] pre IH]; intros caps Hnd Hopen Hfail; simpl.
  - rewrite Hfail. now rewrite app_nil_r.
  - rewrite (Hopen d0 p0) by now left.
    assert (Hfresh : ~ In d0 (Py.keys caps)).
    { intros Hin. simpl in Hnd. apply NoDup_remove_2 in Hnd.
      apply Hnd. apply in_or_app. now left. }
    rewrite assign_fresh by assumption.
    rewrite IH.
    + now rewrite <- app_assoc.
    + rewrite keys_app. simpl. rewrite <- app_assoc. exact Hnd.
    + intros d' p' Hin. apply (Hopen d'). now right.
    + exact Hfail.
Qed.

(** X14.  On a dict of paths, the constructor of [VideoManager] yields a
    manager exactly when every path opens, and its captures are then keyed
    like the paths, in the same order; at the first path that does not
    open it raises [FileNotFoundError] for that path, having opened and
    stored the captures of the directions before it and none after. *)
Theorem new_manager_opens_in_order (paths : list (string * string)) :
  NoDup (Py.keys paths) ->
  ((forall d p, In (d, p) paths -> Video.isOpened (Video.open p) = true) ->
   Video.new_manager paths
   = Video.Loaded
       (Video.mkManager paths
          (map (fun it => (fst it, Video.open (snd it))) paths))) /\
  (forall pre d p post,
     paths = pre ++ (d, p) :: post ->
     (forall d' p', In (d', p') pre ->
                    Video.isOpened (Video.open p') = true) ->
     Video.isOpened (Video.open p) = false ->
     Video.new_manager paths
     = Video.FileNotFoundError p
         (Video.mkManager paths
            (map (fun it => (fst it, Video.open (snd it))) pre))).
Proof.
  intros Hnd. split.
  - intros Hopen. unfold Video.new_manager.
    rewrite load_loop_opened; [reflexivity | exact Hnd | exact Hopen].
  - intros pre d p post -> Hopen Hfail. unfold Video.new_manager.
    rewrite load_loop_fails; [reflexivity | | exact Hopen | exact Hfail].
    simpl. rewrite keys_app in Hnd.
    revert Hnd. generalize (Py.keys ((d, p) :: post)).
    intros l Hnd. induction l as [|x l IHl].
    + now rewrite app_nil_r in Hnd.
    + apply IHl. eapply NoDup_remove_1. exact Hnd.
Qed.

Lemma read_loop_spec (caps : list (string * capture)) : forall frames,
  NoDup (Py.keys frames ++ Py.keys caps) ->
  Video.read_loop caps frames
  = (map (fun it => (fst it, snd (Video.read_or_rewind (snd it)))) caps,
     frames
     ++ map (fun it => (fst it, fst (Video.read_or_rewind (snd it)))) caps).
Proof.
  induction caps as [|[d cap] caps IH]; intros frames Hnd; simpl.
  - now rewrite app_nil_r.
  - destruct (Video.read_or_rewind cap) as [f cap'] eqn:E.
    assert (Hfresh : ~ In d (Py.keys frames)).
    { intros Hin. simpl in Hnd. apply NoDup_remove_2 in Hnd.
      apply Hnd. apply in_or_app. now left. }
    rewrite assign_fresh by assumption.
    rewrite IH.
    + simpl. now rewrite <- app_assoc.
    + rewrite keys_app. simpl. rewrite <- app_assoc. exact Hnd.
Qed.

(** X15.  [read_frames] returns one entry per capture, under the same keys
    and in the same order, and advances every capture; the entry of a
    direction is [None] exactly when the read fails and the read that
    follows the rewind fails as well. *)
Theorem read_frames_per_capture (self : Video.VideoManager capture) :
  NoDup (Py.keys (Video.captures self)) ->
  fst (Video.read_frames self)
  = map (fun it => (fst it, fst (Video.read_or_rewind (snd it))))
        (Video.captures self) /\
  Video.captures (snd (Video.read_frames self))
  = map (fun it => (fst it, snd (Video.read_or_rewind (snd it))))
        (Video.captures self) /\
  Video.video_paths (snd (Video.read_frames self)) = Video.video_paths self /\
  Py.keys (fst (Video.read_frames self)) = Py.keys (Video.captures self) /\
  forall cap,
    fst (Video.read_or_rewind cap) = None <->
    fst (Video.read cap) = None /\
    fst (Video.read (Video.rewind (snd (Video.read cap)))) = None.
Proof.
  intros Hnd. unfold Video.read_frames.
  rewrite read_loop_spec by exact Hnd. simpl.
  split; [reflexivity|]. split; [reflexivity|]. split; [reflexivity|].
  split; [apply keys_map_snd|].
  intros cap. unfold Video.read_or_rewind.
  destruct (Video.read cap) as [[f|] cap1]; simpl.
  - split; [discriminate | intros [H1 _]; discriminate].
  - tauto.
Qed.

Lemma read_frames_keys (self : Video.VideoManager capture) :
  NoDup (Py.keys (Video.captures self)) ->
  Py.keys (fst (Video.read_frames self)) = Py.keys (Video.captures self) /\
  NoDup (Py.keys (fst (Video.read_frames self))).
Proof.
  intros Hnd. unfold Video.read_frames.
  rewrite read_loop_spec by exact Hnd. simpl.
  rewrite keys_map_snd. split; [reflexivity | exact Hnd].
Qed.

Lemma read_frames_captures_keys (self : Video.VideoManager capture) :
  NoDup (Py.keys (Video.captures self)) ->
  Py.keys (Video.captures (snd (Video.read_frames self)))
  = Py.keys (Video.captures self).
Proof.
  intros Hnd. unfold Video.read_frames.
  rewrite read_loop_spec by exact Hnd. simpl. apply keys_map_snd.
Qed.

End VideoFacts.

Lemma new_manager_opens_in_order_witness :
  NoDup (Py.keys Config.VIDEO_PATHS) /\
  (forall d p, In (d, p) Config.VIDEO_PATHS ->
               Clip.opened (Video.open p) = true) /\
  Video.new_manager Config.VIDEO_PATHS
  = Video.Loaded
      (Video.mkManager Config.VIDEO_PATHS
         (map (fun it => (fst it, Video.open (snd it))) Config.VIDEO_PATHS)).
Proof.
  assert (Hnd : NoDup (Py.keys Config.VIDEO_PATHS)).
  { simpl. repeat constructor; simpl; intuition discriminate. }
  assert (Hopen : forall d p, In (d, p) Config.VIDEO_PATHS ->
                              Video.isOpened (Video.open p) = true).
  { intros d p Hin. simpl in Hin.
    destruct Hin as [E|[E|[E|[E|[]]]]]; injection E as _ <-; reflexivity. }
  split; [exact Hnd|]. split; [exact Hopen|].
  exact (proj1 (new_manager_opens_in_order Config.VIDEO_PATHS Hnd) Hopen).
Defined.

Lemma read_frames_per_capture_witness :
  NoDup (Py.keys (Video.captures Clip.manager)) /\
  fst (Video.read_frames Clip.manager)
  = [("NORTH", Some 10%nat); ("EAST", Some 20%nat);
     ("SOUTH", Some 30%nat); ("WEST", Some 40%nat)]%string /\
  Py.keys (fst (Video.read_frames Clip.manager))
  = Py.keys (Video.captures Clip.manager).
Proof.
  assert (Hnd : NoDup (Py.keys (Video.captures Clip.manager))).
  { simpl. repeat constructor; simpl; intuition discriminate. }
  destruct (read_frames_per_capture Clip.manager Hnd)
    as (Hframes & _ & _ & Hkeys & _).
  split; [exact Hnd|]. split; [|exact Hkeys].
  rewrite Hframes. reflexivity.
Defined.

(** ** The main loop *)

Section MainFacts.

Context {model capture frame : Type}
  `{Detector.YOLO model frame} `{Video.VideoCapture capture frame}
  `{Main.Annotator frame}.

Lemma detect_count_nonneg (det : Detector.VehicleDetector model) (f : frame) :
  (0 <= fst (Detector.detect det f))%Z.
Proof.
  unfold Detector.detect. rewrite detect_results_spec. simpl. lia.
Qed.

Lemma process_loop_spec (det : Detector.VehicleDetector model)
  (all_frames : list (string * option frame)) :
  forall frames raw_counts valid,
  NoDup (Py.keys frames ++ Py.keys all_frames) ->
  NoDup (Py.keys raw_counts ++ Py.keys all_frames) ->
  Main.process_loop det all_frames frames raw_counts valid
  = (frames
     ++ map (fun it => (fst it,
                        match snd it with
                        | None => None
                        | Some f =>
                            Some (Main.draw_detections
                                    f (snd (Detector.detect det f)))
                        end)) all_frames,
     raw_counts
     ++ map (fun it => (fst it,
                        match snd it with
                        | None => 0%Z
                        | Some f => fst (Detector.detect det f)
                        end)) all_frames,
     (valid
      + Z.of_nat (List.length
                    (filter (fun it => match snd it with
                                       | Some _ => true
                                       | None => false
                                       end) all_frames)))%Z).
Proof.
  induction all_frames as [|[d [f|]] rest IH];
    intros frames raw_counts valid Hf Hr; simpl.
  - now rewrite !app_nil_r, Z.add_0_r.
  - destruct (Detector.detect det f) as [n dets] eqn:E. simpl.
    assert (Hd1 : ~ In d (Py.keys frames)).
    { intros Hin. simpl in Hf. apply NoDup_remove_2 in Hf.
      apply Hf. apply in_or_app. now left. }
    assert (Hd2 : ~ In d (Py.keys raw_counts)).
    { intros Hin. simpl in Hr. apply NoDup_remove_2 in Hr.
      apply Hr. apply in_or_app. now left. }
    rewrite !assign_fresh by assumption.
    rewrite IH.
    + rewrite <- !app_assoc. simpl. f_equal. lia.
    + rewrite keys_app. simpl. rewrite <- app_assoc. exact Hf.
    + rewrite keys_app. simpl. rewrite <- app_assoc. exact Hr.
  - assert (Hd1 : ~ In d (Py.keys frames)).
    { intros Hin. simpl in Hf. apply NoDup_remove_2 in Hf.
      apply Hf. apply in_or_app. now left. }
    assert (Hd2 : ~ In d (Py.keys raw_counts)).
    { intros Hin. simpl in Hr. apply NoDup_remove_2 in Hr.
      apply Hr. apply in_or_app. now left. }
    rewrite !assign_fresh by assumption.
    rewrite IH.
    + rewrite <- !app_assoc. reflexivity.
    + rewrite keys_app. simpl. rewrite <- app_assoc. exact Hf.
    + rewrite keys_app. simpl. rewrite <- app_assoc. exact Hr.
Qed.

Lemma process_frames_spec (vm : Video.VideoManager capture)
  (det : Detector.VehicleDetector model) (start finish : Q) :
  NoDup (Py.keys (Video.captures vm)) ->
  exists frames raw_counts detect_time_ms,
    Main.process_frames vm det start finish
    = (snd (Video.read_frames vm), (frames, raw_counts, detect_time_ms)) /\
    Py.keys raw_counts = Py.keys (Video.captures vm) /\
    Py.keys frames = Py.keys (Video.captures vm) /\
    (forall d n, In (d, n) raw_counts -> (0 <= n)%Z).
Proof.
  intros Hnd.
  destruct (read_frames_keys vm Hnd) as [Hkeys Hnd'].
  unfold Main.process_frames.
  destruct (Video.read_frames vm) as [all_frames vm'] eqn:Eread.
  simpl in Hkeys, Hnd' |- *.
  rewrite process_loop_spec by (simpl; assumption). simpl.
  do 3 eexists. split; [reflexivity|].
  split; [rewrite keys_map_snd; exact Hkeys|].
  split; [rewrite keys_map_snd; exact Hkeys|].
  intros d n Hin. apply in_map_iff in Hin.
  destruct Hin as ([d' [f|]] & E & _); injection E as _ <-;
    [apply detect_count_nonneg | lia].
Qed.

(** X16.  [process_frames] returns raw counts and frames under the keys of
    the manager's captures, in their order; no count is negative; a
    direction whose frame could not be read has the count 0 and the frame
    [None], a direction whose frame was read has the count that [detect]
    returns for it; when no frame at all was read the detection time is 0
    instead of a division by zero. *)
Theorem process_frames_counts (vm : Video.VideoManager capture)
  (det : Detector.VehicleDetector model) (start finish : Q) :
  NoDup (Py.keys (Video.captures vm)) ->
  exists frames raw_counts detect_time_ms,
    Main.process_frames vm det start finish
    = (snd (Video.read_frames vm), (frames, raw_counts, detect_time_ms)) /\
    Py.keys raw_counts = Py.keys (Video.captures vm) /\
    Py.keys frames = Py.keys (Video.captures vm) /\
    (forall d n, In (d, n) raw_counts -> (0 <= n)%Z) /\
    (forall d, In (d, None) (fst (Video.read_frames vm)) ->
               In (d, 0%Z) raw_counts /\ In (d, None) frames) /\
    (forall d f, In (d, Some f) (fst (Video.read_frames vm)) ->
                 In (d, fst (Detector.detect det f)) raw_counts) /\
    ((forall d f, In (d, f) (fst (Video.read_frames vm)) -> f = None) ->
     detect_time_ms = 0).
Proof.
  intros Hnd.
  destruct (read_frames_keys vm Hnd) as [Hkeys Hnd'].
  unfold Main.process_frames.
  destruct (Video.read_frames vm) as [all_frames vm'] eqn:Eread.
  simpl in Hkeys, Hnd' |- *.
  rewrite process_loop_spec by (simpl; assumption). simpl.
  do 3 eexists. split; [reflexivity|].
  split; [rewrite keys_map_snd; exact Hkeys|].
  split; [rewrite keys_map_snd; exact Hkeys|].
  split; [|split; [|split]].
  - intros d n Hin. apply in_map_iff in Hin.
    destruct Hin as ([d' [f|]] & E & _); injection E as _ <-;
      [apply detect_count_nonneg | lia].
  - intros d Hin. split.
    + apply in_map_iff. exists (d, None). auto.
    + apply in_map_iff. exists (d, None). auto.
  - intros d f Hin. apply in_map_iff. exists (d, Some f). auto.
  - intros Hnone.
    assert (E : filter (fun it : string * option frame =>
                          match snd it with
                          | Some _ => true
                          | None => false
                          end) all_frames = []).
    { clear -Hnone. induction all_frames as [|[d f] l IH]; [reflexivity|].
      simpl. rewrite (Hnone d f) by now left. simpl.
      apply IH. intros d' f' Hin. apply (Hnone d'). now right. }
    rewrite E. reflexivity.
Qed.


End MainFacts.

Lemma green_time_config x :
  (MIN_GREEN_TIME <= green_time MIN_GREEN_TIME MAX_GREEN_TIME x
   <= MAX_GREEN_TIME)%Z.
Proof. unfold green_time, MIN_GREEN_TIME, MAX_GREEN_TIME. lia. Qed.

Lemma default_controller_driven : driven default_controller.
Proof.
  unfold driven. simpl. repeat split; try reflexivity; try discriminate.
  intros d x.
  repeat match goal with
         | |- context [String.eqb d ?k] => destruct (String.eqb d k)
         end;
    intros E; try discriminate; injection E as <-; apply Qle_refl.
Qed.

(** The two controller calls of one iteration, on counts keyed by the
    four directions. *)
Lemma driven_tick c raw_counts t t' :
  driven c ->
  Py.keys raw_counts = DIRECTIONS ->
  (forall d n, In (d, n) raw_counts -> (0 <= n)%Z) ->
  exists c1 c2 d r,
    update_counts c raw_counts = Returned c1 tt /\
    decide_signal c1 t t' = Returned c2 (Some d, r) /\
    driven c2 /\
    In d DIRECTIONS /\
    (0 <= r)%Z /\
    (0 <= t' -> r = 0%Z) /\
    (MIN_GREEN_TIME <= current_duration c2 <= MAX_GREEN_TIME)%Z.
Proof.
  intros (Hkeys & Halpha & Hmin & Hmax & Hend & Hpos & Hgreen) Hraw Hnonneg.
  (* update_counts *)
  assert (Hsub : forall k, In k (Py.keys raw_counts) ->
                           In k (Py.keys (smooth_counts c)))
    by (intros k; rewrite Hraw, Hkeys; trivial).
  pose proof (update_loop_returns (ALPHA c) raw_counts (smooth_counts c) Hsub)
    as Hret.
  pose proof (update_loop_keys (ALPHA c) raw_counts (smooth_counts c))
    as Hkeys1.
  assert (Hpos1 : forall d x,
            Py.getitem (fst (update_loop (ALPHA c) (smooth_counts c)
                                         raw_counts)) d = Some x -> 0 <= x).
  { intros d x Hx.
    assert (Hin : In d (Py.keys (smooth_counts c))).
    { rewrite <- Hkeys1. apply getitem_in_keys. rewrite Hx. discriminate. }
    destruct (Py.getitem (smooth_counts c) d) as [x0|] eqn:E0.
    2:{ apply getitem_in_keys in Hin. contradiction. }
    destruct (update_loop_bound (ALPHA c) d raw_counts (smooth_counts c)
                                x0 x0)
      as (x' & Hx' & Hlo & _).
    - rewrite Halpha. vm_compute. discriminate.
    - rewrite Halpha. reflexivity.
    - exact Hnonneg.
    - exact E0.
    - eapply Hpos. exact E0.
    - apply Qle_refl.
    - rewrite Hx in Hx'. injection Hx' as <-. exact Hlo. }
  destruct (update_loop (ALPHA c) (smooth_counts c) raw_counts)
    as [sc1 oe] eqn:Eloop.
  simpl in Hret, Hkeys1, Hpos1. subst oe.
  set (c1 := with_smooth_counts c sc1).
  assert (Hupd : update_counts c raw_counts = Returned c1 tt)
    by (unfold update_counts; rewrite Eloop; reflexivity).
  assert (Hne : smooth_counts c1 <> []).
  { simpl. intros E. rewrite E in Hkeys1. rewrite Hkeys in Hkeys1.
    discriminate. }
  assert (Hrem : forall c', green_end_time c' = 0 ->
                            (0 <= t' -> remaining_at c' t' = 0%Z)).
  { intros c' He Ht'. now apply remaining_at_zero. }
  exists c1. rewrite Hupd.
  unfold decide_signal.
  destruct (phase_over c1 t) eqn:Hover.
  - destruct (select_phase_returns c1 Hne)
      as (a & c2 & x & _ & Hsel & Hcur & _ & _ & Hx & Hdur).
    cbv zeta in Hcur, Hx.
    destruct (select_phase_preserves c1)
      as (Hsc & He & Hmn & Hmx & Hal & _).
    rewrite Hsel in Hsc, He, Hmn, Hmx, Hal. simpl in Hsc, He, Hmn, Hmx, Hal.
    rewrite Hsel, Hcur.
    match type of Hcur with
    | _ = Some ?sel => set (selected := sel) in *
    end.
    assert (Hd : In selected DIRECTIONS).
    { rewrite <- Hkeys, <- Hkeys1. apply getitem_in_keys.
      change (Py.getitem sc1 selected = Some x) in Hx.
      rewrite Hx. discriminate. }
    assert (Hbounds : (MIN_GREEN_TIME <= current_duration c2
                       <= MAX_GREEN_TIME)%Z).
    { rewrite Hdur. simpl. rewrite Hmin, Hmax. apply green_time_config. }
    exists c2, selected, (remaining_at c2 t').
    split; [reflexivity|]. split; [reflexivity|].
    split; [|split; [exact Hd|split; [apply remaining_at_nonneg|
             split; [apply Hrem; rewrite He; exact Hend | exact Hbounds]]]].
    unfold driven. rewrite Hsc, He, Hmn, Hmx, Hal. simpl.
    split; [congruence|].
    repeat (split; [assumption|]).
    rewrite Hcur. intros d E. injection E as <-.
    split; [exact Hd | exact Hbounds].
  - unfold phase_over in Hover.
    destruct (current_green c1) as [d|] eqn:Hg; [|discriminate].
    simpl in Hg. destruct (Hgreen d Hg) as [Hd Hbounds].
    exists c1, d, (remaining_at c1 t').
    split; [reflexivity|]. split; [reflexivity|].
    split; [|split; [exact Hd|split; [apply remaining_at_nonneg|
             split; [apply Hrem; exact Hend | exact Hbounds]]]].
    unfold driven. simpl.
    split; [congruence|].
    repeat (split; [assumption|]).
    exact Hgreen.
Qed.

Section LoopFacts.

Context {model capture frame : Type}
  `{Detector.YOLO model frame} `{Video.VideoCapture capture frame}
  `{Main.Annotator frame}.

(** One iteration from a state whose captures are keyed by the four
    directions and whose controller is as [main] drives it. *)
Lemma iteration_shown (st : Main.state model capture) (clk : Main.clock) :
  Py.keys (Video.captures (Main.video_manager st)) = DIRECTIONS ->
  driven (Main.controller st) ->
  exists st' out,
    Main.iteration st clk = Main.Shown st' out /\
    Py.keys (Video.captures (Main.video_manager st')) = DIRECTIONS /\
    driven (Main.controller st') /\
    presentable out /\
    (0 <= Main.at_return clk -> Main.remaining_time out = 0%Z).
Proof.
  intros Hcaps Hdriven.
  assert (Hnd : NoDup (Py.keys (Video.captures (Main.video_manager st))))
    by (rewrite Hcaps; apply directions_nodup).
  destruct (process_frames_spec (Main.video_manager st) (Main.detector st)
              (Main.at_start clk) (Main.at_finish clk) Hnd)
    as (frames & raw & dt & Hproc & Hkraw & Hkframes & Hnonneg).
  destruct (driven_tick (Main.controller st) raw
              (Main.at_decide clk) (Main.at_return clk) Hdriven)
    as (c1 & c2 & d & r & Hupd & Hdec & Hdriven2 & Hd & Hr & Hr0 & Hdur).
  { rewrite Hkraw. exact Hcaps. }
  { exact Hnonneg. }
  unfold Main.iteration. rewrite Hproc, Hupd, Hdec.
  do 2 eexists. split; [reflexivity|]. simpl.
  split; [rewrite read_frames_captures_keys by exact Hnd; exact Hcaps|].
  split; [exact Hdriven2|].
  split; [|exact Hr0].
  destruct Hdriven2 as (Hk2 & _ & _ & _ & _ & Hpos2 & _).
  unfold presentable. simpl.
  split; [rewrite Hkframes; exact Hcaps|].
  split; [exact Hk2|].
  split.
  { intros d' x Hin. apply (Hpos2 d'). apply in_getitem; [|exact Hin].
    rewrite Hk2. apply directions_nodup. }
  split; [exists d; auto|]. split; assumption.
Qed.

Lemma loop_shown (clks : list Main.clock) :
  forall st : Main.state model capture,
  Py.keys (Video.captures (Main.video_manager st)) = DIRECTIONS ->
  driven (Main.controller st) ->
  exists outs st',
    Main.loop st clks = (outs, st', None) /\
    List.length outs = List.length clks /\
    Forall presentable outs /\
    (Forall (fun clk => 0 <= Main.at_return clk) clks ->
     Forall (fun out => Main.remaining_time out = 0%Z) outs).
Proof.
  induction clks as [|clk clks IH]; intros st Hcaps Hdriven; simpl.
  - exists [], st. repeat split; constructor.
  - destruct (iteration_shown st clk Hcaps Hdriven)
      as (st1 & out & Hit & Hcaps1 & Hdriven1 & Hout & Hzero).
    destruct (IH st1 Hcaps1 Hdriven1)
      as (outs & st' & Hloop & Hlen & Hall & Hzeros).
    rewrite Hit, Hloop.
    exists (out :: outs), st'.
    split; [reflexivity|]. split; [simpl; now rewrite Hlen|].
    split; [now constructor|].
    intros Hclk. inversion Hclk; subst. constructor; auto.
Qed.

Lemma initialize_components_state (m : model) (t0 : Q)
  (st : Main.state model capture) :
  Main.initialize_components m t0 = inr st ->
  Py.keys (Video.captures (Main.video_manager st)) = DIRECTIONS /\
  driven (Main.controller st).
Proof.
  unfold Main.initialize_components, Video.new_manager.
  destruct (Video.load_loop Config.VIDEO_PATHS []) as [caps [p|]] eqn:E;
    [discriminate|].
  intros Hst. injection Hst as <-. simpl.
  split; [|apply default_controller_driven].
  assert (Hall : forall d p, In (d, p) Config.VIDEO_PATHS ->
                             Video.isOpened (Video.open p) = true).
  { revert E. unfold Config.VIDEO_PATHS. simpl.
    repeat match goal with
           | |- context [Video.isOpened ?c] =>
               destruct (Video.isOpened c) eqn:?; [|discriminate]
           end.
    intros _ d p Hin.
    destruct Hin as [Ep|[Ep|[Ep|[Ep|[]]]]]; injection Ep as _ <-; assumption. }
  rewrite load_loop_opened in E.
  - injection E as <-. simpl. reflexivity.
  - simpl. repeat constructor; simpl; intuition discriminate.
  - exact Hall.
Qed.

(** X17.  Once [initialize_components] has succeeded, no iteration of the
    loop of [main] fails in a controller call, whatever the frames, the
    detections and the clock: [update_counts] never meets an unknown key
    (the captures, hence the raw counts, are keyed by the directions of
    [config.VIDEO_PATHS], which are the controller's), and every
    iteration hands to the dashboard frames and smoothed counts under the
    four directions, counts that are not negative, a green direction among
    the four, a remaining time that is not negative and a duration within
    the bounds of [config.py]. *)
Theorem main_loop_never_fails (m : model) (t0 : Q)
  (st : Main.state model capture) (clks : list Main.clock) :
  Main.initialize_components m t0 = inr st ->
  exists outs st',
    Main.loop st clks = (outs, st', None) /\
    List.length outs = List.length clks /\
    Forall presentable outs.
Proof.
  intros Hinit.
  destruct (initialize_components_state m t0 st Hinit) as [Hcaps Hdriven].
  destruct (loop_shown clks st Hcaps Hdriven)
    as (outs & st' & Hloop & Hlen & Hall & _).
  exists outs, st'. auto.
Qed.

(** X18.  In the loop of [main], at clock readings that are not negative,
    the remaining time handed to the dashboard is 0 in every iteration
    while the duration is at least [MIN_GREEN_TIME]; the bar of the green
    timer, whose width is computed from the two, is therefore always
    empty, whatever the width of the dashboard. *)
Theorem green_timer_bar_always_empty (m : model) (t0 : Q)
  (st : Main.state model capture) (clks : list Main.clock) :
  Main.initialize_components m t0 = inr st ->
  Forall (fun clk => 0 <= Main.at_return clk) clks ->
  Forall (fun out =>
            Main.remaining_time out = 0%Z /\
            (MIN_GREEN_TIME <= Main.total_duration out)%Z /\
            forall width_v,
              Dashboard.progress_bar_width
                (Main.remaining_time out) (Main.total_duration out) width_v
              = 0%Z)
         (fst (fst (Main.loop st clks))).
Proof.
  intros Hinit Hclk.
  destruct (initialize_components_state m t0 st Hinit) as [Hcaps Hdriven].
  destruct (loop_shown clks st Hcaps Hdriven)
    as (outs & st' & Hloop & _ & Hall & Hzeros).
  rewrite Hloop. simpl. specialize (Hzeros Hclk).
  rewrite Forall_forall in *. intros out Hin.
  destruct (Hall out Hin) as (_ & _ & _ & _ & _ & Hdur).
  rewrite (Hzeros out Hin).
  split; [reflexivity|]. split; [lia|].
  intros w. unfold Dashboard.progress_bar_width.
  assert (Hpos : (0 <? Main.total_duration out)%Z = true).
  { apply Z.ltb_lt. unfold MIN_GREEN_TIME in Hdur. lia. }
  rewrite Hpos.
  apply (int_comp _ 0); [|unfold Qdiv; ring].
  setoid_replace (inject_Z 0 / inject_Z (Main.total_duration out)
                  * inject_Z w) with 0 by (unfold Qdiv; ring).
  apply Qle_refl.
Qed.

End LoopFacts.

Lemma process_frames_counts_witness :
  NoDup (Py.keys (Video.captures Clip.manager)) /\
  exists frames raw_counts detect_time_ms,
    Main.process_frames Clip.manager (Detector.new_detector tt) 1000 1001
    = (snd (Video.read_frames Clip.manager),
       (frames, raw_counts, detect_time_ms)) /\
    Py.keys raw_counts = Py.keys (Video.captures Clip.manager) /\
    (forall d n, In (d, n) raw_counts -> (0 <= n)%Z).
Proof.
  assert (Hnd : NoDup (Py.keys (Video.captures Clip.manager))).
  { simpl. repeat constructor; simpl; intuition discriminate. }
  split; [exact Hnd|].
  destruct (process_frames_counts Clip.manager (Detector.new_detector tt)
              1000 1001 Hnd)
    as (frames & raw & dt & Hp & Hk & _ & Hn & _).
  exists frames, raw, dt. auto.
Defined.

Lemma main_loop_never_fails_witness :
  Main.initialize_components tt 1000 = inr Clip.start /\
  exists outs st',
    Main.loop Clip.start [Clip.tick 1000; Clip.tick 1001; Clip.tick 1002]
    = (outs, st', None) /\
    List.length outs = 3%nat /\
    Forall presentable outs.
Proof.
  assert (Hinit : Main.initialize_components tt 1000 = inr Clip.start)
    by reflexivity.
  split; [exact Hinit|].
  exact (main_loop_never_fails tt 1000 Clip.start
           [Clip.tick 1000; Clip.tick 1001; Clip.tick 1002] Hinit).
Defined.

Lemma green_timer_bar_always_empty_witness :
  let clks := [Clip.tick 1000; Clip.tick 1001] in
  Main.initialize_components tt 1000 = inr Clip.start /\
  Forall (fun clk => 0 <= Main.at_return clk) clks /\
  Forall (fun out =>
            Main.remaining_time out = 0%Z /\
            (MIN_GREEN_TIME <= Main.total_duration out)%Z /\
            forall width_v,
              Dashboard.progress_bar_width
                (Main.remaining_time out) (Main.total_duration out) width_v
              = 0%Z)
         (fst (fst (Main.loop Clip.start clks))).
Proof.
  intros clks.
  assert (Hinit : Main.initialize_components tt 1000 = inr Clip.start)
    by reflexivity.
  assert (Hclk : Forall (fun clk => 0 <= Main.at_return clk) clks).
  { repeat constructor; vm_compute; discriminate. }
  split; [exact Hinit|]. split; [exact Hclk|].
  exact (green_timer_bar_always_empty tt 1000 Clip.start clks Hinit Hclk).
Defined.

(** ** The schedule under a steady leader *)

(** One selection at a clock reading that is not negative, on a state
    whose end time is 0: the block is entered and the counts stay. *)
Lemma steady_selection c t :
  Py.keys (smooth_counts c) = DIRECTIONS ->
  green_end_time c = 0 -> 0 <= t ->
  exists a c' x,
    candidate (smooth_counts c) = Some a /\
    select_phase c = Returned c' tt /\
    step c (DecideSignal t t) = c' /\
    decide_signal c t t = Returned c' (current_green c', remaining_at c' t) /\
    phase_over c t = true /\
    smooth_counts c' = smooth_counts c /\
    green_end_time c' = 0 /\
    MAX_CONSECUTIVE c' = MAX_CONSECUTIVE c /\
    let count := if eq_last (last_green c) a
                 then (consecutive_count c + 1)%Z else 1%Z in
    let over := (MAX_CONSECUTIVE c <? count)%Z in
    let selected := if over then reselect (smooth_counts c) (last_green c) a
                    else a in
    current_green c' = Some selected /\
    last_green c' = Some selected /\
    consecutive_count c' = (if over then 1%Z else count) /\
    Py.getitem (smooth_counts c) selected = Some x.
Proof.
  intros Hkeys Hend Ht.
  assert (Hover : phase_over c t = true).
  { unfold phase_over. destruct (current_green c); [|reflexivity].
    rewrite Hend. now apply Qle_bool_iff. }
  assert (Hne : smooth_counts c <> [])
    by (intros E; rewrite E in Hkeys; discriminate).
  destruct (select_phase_returns c Hne)
    as (a & c' & x & Hcand & Hsel & Hcur & Hlast & Hcount & Hx & _).
  destruct (select_phase_preserves c) as (Hsc & He & _ & _ & _ & Hm).
  rewrite Hsel in Hsc, He, Hm. simpl in Hsc, He, Hm.
  exists a, c', x.
  split; [exact Hcand|]. split; [exact Hsel|].
  split; [simpl; rewrite decide_signal_object, Hover, Hsel; reflexivity|].
  split; [now apply decide_signal_selects|].
  split; [exact Hover|]. split; [exact Hsc|].
  split; [congruence|]. split; [exact Hm|].
  cbv zeta. auto.
Qed.

Lemma schedule_from_phase X E ts : forall c k,
  Py.keys (smooth_counts c) = DIRECTIONS ->
  green_end_time c = 0 ->
  Forall (fun t => 0 <= t) ts ->
  (1 <= MAX_CONSECUTIVE c)%Z ->
  candidate (smooth_counts c) = Some X ->
  reselect (smooth_counts c) (Some X) X = E ->
  (0 <= k <= MAX_CONSECUTIVE c)%Z ->
  (k = 0%Z -> last_green c <> Some X) ->
  ((0 < k)%Z -> last_green c = Some X /\ consecutive_count c = k) ->
  forall i, (i < List.length ts)%nat ->
    nth_error (selections c (map (fun t => DecideSignal t t) ts)) i
    = Some (if ((k + Z.of_nat i + 1) mod (MAX_CONSECUTIVE c + 1) =? 0)%Z
            then E else X).
Proof.
  induction ts as [|t ts IH];
    intros c k Hkeys Hend Hts Hmax Hcand Hres Hk Hk0 Hkpos i Hi;
    [simpl in Hi; lia|].
  pose proof (Forall_inv Hts) as Ht. pose proof (Forall_inv_tail Hts) as Hts'.
  simpl in Ht.
  destruct (steady_selection c t Hkeys Hend Ht)
    as (a & c' & x & Hcand' & Hsel & Hstep & Hdec & Hover & Hsc & Hend'
        & Hm & Hcur & Hlast & Hcount & _).
  rewrite Hcand in Hcand'. injection Hcand' as <-.
  cbv zeta in Hcur, Hlast, Hcount.
  set (M := MAX_CONSECUTIVE c) in *.
  (* the override, when it happens, takes a direction other than X *)
  assert (HEX : Some X <> Some (reselect (smooth_counts c) (Some X) X)).
  { destruct (reselect_spec (smooth_counts c) (Some X) X)
      as (d & y & Hd & Hne & _).
    - rewrite Hkeys. apply directions_nodup.
    - rewrite Hkeys. apply directions_other.
    - now rewrite Hd. }
  (* the phase after this selection, and the direction selected *)
  assert (Hnext : exists k' d,
            current_green c' = Some d /\
            d = (if ((k + 1) mod (M + 1) =? 0)%Z then E else X) /\
            (0 <= k' <= M)%Z /\
            k' = ((k + 1) mod (M + 1))%Z /\
            (k' = 0%Z -> last_green c' <> Some X) /\
            ((0 < k')%Z -> last_green c' = Some X /\
                           consecutive_count c' = k')).
  { destruct (Z.eq_dec k 0) as [Ez|Enz].
    - (* the last green is not X: X starts a new streak *)
      assert (El : eq_last (last_green c) X = false).
      { destruct (eq_last (last_green c) X) eqn:El; [|reflexivity].
        apply (proj1 (eq_last_true _ _)) in El. now apply Hk0 in El. }
      rewrite El in *.
      assert (Eo : (M <? 1)%Z = false) by (apply Z.ltb_ge; lia).
      rewrite Eo in *.
      assert (Emod : ((k + 1) mod (M + 1) = 1)%Z)
        by (subst k; apply Z.mod_small; lia).
      exists 1%Z, X. rewrite Emod. simpl.
      repeat split; try assumption; try lia.
    - destruct (Hkpos ltac:(lia)) as [Hl Hc].
      rewrite (proj2 (eq_last_true _ _) Hl), Hc in *.
      destruct (Z.ltb_spec M (k + 1)) as [Hov|Hno].
      + (* the streak of X is full: the override takes E *)
        assert (Ek : k = M) by lia.
        assert (Emod : ((k + 1) mod (M + 1) = 0)%Z)
          by (rewrite Ek; apply Z_mod_same_full).
        rewrite Hl, Hres in *.
        exists 0%Z, E. rewrite Emod. simpl.
        repeat split; try assumption; try lia.
        rewrite Hlast. congruence.
      + assert (Emod : ((k + 1) mod (M + 1) = k + 1)%Z)
          by (apply Z.mod_small; lia).
        exists (k + 1)%Z, X. rewrite Emod.
        destruct (Z.eqb_spec (k + 1) 0); [lia|].
        repeat split; try assumption; try lia. }
  destruct Hnext as (k' & d & Hd & Hdval & Hk' & Hk'val & Hk'0 & Hk'pos).
  cbn [map selections]. rewrite Hover, Hdec, Hd, Hstep. cbn [app].
  destruct i as [|i]; cbn [nth_error].
  - rewrite Hdval.
    replace (k + Z.of_nat 0 + 1)%Z with (k + 1)%Z by lia. reflexivity.
  - assert (HIH := IH c' k').
    rewrite Hsc, Hm in HIH. fold M in HIH.
    rewrite (HIH Hkeys Hend' Hts' Hmax Hcand Hres Hk' Hk'0 Hk'pos i)
      by (simpl in Hi; lia).
    replace ((k' + Z.of_nat i + 1) mod (M + 1))%Z
      with ((k + Z.of_nat (S i) + 1) mod (M + 1))%Z; [reflexivity|].
    rewrite Hk'val.
    rewrite <- (Z.add_assoc _ (Z.of_nat i) 1), Z.add_mod_idemp_l by lia.
    f_equal. lia.
Qed.

(** X6.  While the smoothed counts stay as they are, with a limit of at
    least 1, a controller whose last green is not the leading direction
    gives the green to the leader [MAX_CONSECUTIVE] times, then once to the
    direction that the override prefers, and so on: the selection number
    [i + 1] is the override's direction when [i + 1] is a multiple of
    [MAX_CONSECUTIVE + 1] and the leader otherwise. *)
Theorem leader_schedule c ts X E :
  Py.keys (smooth_counts c) = DIRECTIONS ->
  green_end_time c = 0 ->
  Forall (fun t => 0 <= t) ts ->
  (1 <= MAX_CONSECUTIVE c)%Z ->
  candidate (smooth_counts c) = Some X ->
  reselect (smooth_counts c) (Some X) X = E ->
  last_green c <> Some X ->
  forall i, (i < List.length ts)%nat ->
    nth_error (selections c (map (fun t => DecideSignal t t) ts)) i
    = Some (if ((Z.of_nat i + 1) mod (MAX_CONSECUTIVE c + 1) =? 0)%Z
            then E else X).
Proof.
  intros Hkeys Hend Hts Hmax Hcand Hres Hlast i Hi.
  rewrite (schedule_from_phase X E ts c 0%Z); try assumption;
    [reflexivity | lia | auto | lia].
Qed.

Lemma leader_schedule_witness :
  let ts := [1000; 1001; 1002; 1003; 1004; 1005] in
  Py.keys (smooth_counts scenario_A) = DIRECTIONS /\
  green_end_time scenario_A = 0 /\
  Forall (fun t => 0 <= t) ts /\
  (1 <= MAX_CONSECUTIVE scenario_A)%Z /\
  candidate (smooth_counts scenario_A) = Some "NORTH"%string /\
  reselect (smooth_counts scenario_A) (Some "NORTH"%string) "NORTH"
  = "EAST"%string /\
  last_green scenario_A <> Some "NORTH"%string /\
  selections scenario_A (map (fun t => DecideSignal t t) ts)
  = ["NORTH"; "NORTH"; "EAST"; "NORTH"; "NORTH"; "EAST"]%string /\
  nth_error (selections scenario_A (map (fun t => DecideSignal t t) ts)) 2
  = Some (if ((Z.of_nat 2 + 1) mod (MAX_CONSECUTIVE scenario_A + 1) =? 0)%Z
          then "EAST"%string else "NORTH"%string).
Proof.
  intros ts.
  assert (H1 : Py.keys (smooth_counts scenario_A) = DIRECTIONS)
    by reflexivity.
  assert (H2 : green_end_time scenario_A = 0) by reflexivity.
  assert (H3 : Forall (fun t => 0 <= t) ts)
    by (repeat constructor; vm_compute; discriminate).
  assert (H4 : (1 <= MAX_CONSECUTIVE scenario_A)%Z)
    by (vm_compute; discriminate).
  assert (H5 : candidate (smooth_counts scenario_A) = Some "NORTH"%string)
    by reflexivity.
  assert (H6 : reselect (smooth_counts scenario_A) (Some "NORTH"%string)
                        "NORTH" = "EAST"%string) by reflexivity.
  assert (H7 : last_green scenario_A <> Some "NORTH"%string)
    by discriminate.
  repeat (split; [assumption|]).
  split; [reflexivity|].
  apply (leader_schedule scenario_A ts "NORTH" "EAST" H1 H2 H3 H4 H5 H6 H7 2).
  simpl. lia.
Defined.

Lemma detect_counts_vehicles_witness :
  Detector.detect (Detector.new_detector tt) 10%nat
  = (1%Z, [Detector.mkDetection 2 "car" (9 # 10) 1 2 30 40]) /\
  fst (Detector.detect (Detector.new_detector tt) 10%nat)
  = Z.of_nat (List.length
                (snd (Detector.detect (Detector.new_detector tt) 10%nat))).
Proof.
  split; [reflexivity|].
  exact (proj1 (proj2 (detect_counts_vehicles (Detector.new_detector tt)
                                              10%nat))).
Defined.

(** ** Inverted bounds *)

(** X19.  With [MAX_GREEN] below [MIN_GREEN], a configuration that the
    constructor accepts, every selection stores [MIN_GREEN] as the
    duration, whatever the smoothed counts: the duration lies above
    [MAX_GREEN]. *)
Theorem inverted_bounds_give_min_green c t t' :
  phase_over c t = true ->
  smooth_counts c <> [] ->
  (MAX_GREEN c < MIN_GREEN c)%Z ->
  exists c' d r,
    decide_signal c t t' = Returned c' (Some d, r) /\
    current_duration c' = MIN_GREEN c /\
    (MAX_GREEN c < current_duration c')%Z.
Proof.
  intros Hover Hne Hinv.
  destruct (select_phase_returns c Hne)
    as (a & c' & x & _ & Hsel & Hcur & _ & _ & _ & Hdur).
  rewrite (decide_signal_selects c t t' c' Hover Hsel), Hcur.
  do 3 eexists. split; [reflexivity|].
  rewrite Hdur, (green_time_inverted _ _ _ Hinv). split; [reflexivity | lia].
Qed.

Lemma inverted_bounds_give_min_green_witness :
  let c := object_after (update_counts (init 20 10 (7 # 10) 2)
                                       scenario_A_counts) in
  phase_over c 1000 = true /\
  smooth_counts c <> [] /\
  (MAX_GREEN c < MIN_GREEN c)%Z /\
  exists c' d r,
    decide_signal c 1000 1000 = Returned c' (Some d, r) /\
    current_duration c' = MIN_GREEN c /\
    (MAX_GREEN c < current_duration c')%Z.
Proof.
  intros c.
  assert (H1 : phase_over c 1000 = true) by reflexivity.
  assert (H2 : smooth_counts c <> []) by (vm_compute; discriminate).
  assert (H3 : (MAX_GREEN c < MIN_GREEN c)%Z) by reflexivity.
  repeat (split; [assumption|]).
  exact (inverted_bounds_give_min_green c 1000 1000 H1 H2 H3).
Defined.

(** ** The smoothing bound and the rounding of the operations *)

(** Evaluated in binary64 with a smoothing factor of 0.2 and a raw count
    of 3 at every update, from the 0 of the constructor, the smoothed
    count is within [0, 3] after 23 updates and is 3.0000000000000004,
    above the greatest raw count, after 24. *)
Lemma smoothing_bound_exceeded_in_binary64 :
  Binary64Drift.factor_in_range = true /\
  Binary64Drift.within_bound 23 = true /\
  Binary64Drift.within_bound 24 = false.
Proof. vm_compute. repeat split. Qed.

Lemma to_grid_monotone x y : x <= y -> Rounded.to_grid x <= Rounded.to_grid y.
Proof.
  intros Hxy. unfold Rounded.to_grid.
  apply Qmult_le_compat_r; [|vm_compute; discriminate].
  rewrite <- Zle_Qle. apply Qfloor_resp_le. lra.
Qed.

Lemma to_grid_zero : Rounded.to_grid 0 == 0.
Proof. reflexivity. Qed.

Lemma rounded_update_counts_object rnd c raw_counts :
  object_after (Rounded.update_counts rnd c raw_counts) =
  with_smooth_counts c
    (fst (Rounded.update_loop rnd (ALPHA c) (smooth_counts c) raw_counts)).
Proof.
  unfold Rounded.update_counts.
  destruct (Rounded.update_loop rnd (ALPHA c) (smooth_counts c) raw_counts)
    as [sc [e|]]; reflexivity.
Qed.

Section RoundedSmoothing.

(** The rounding of a float operation, as far as the sign goes: it is
    monotone and leaves 0 as it is. *)
Variable rnd : Q -> Q.
Hypothesis rnd_monotone : forall x y, x <= y -> rnd x <= rnd y.
Hypothesis rnd_zero : rnd 0 == 0.

Lemma rnd_nonneg x : 0 <= x -> 0 <= rnd x.
Proof.
  intros Hx. rewrite <- rnd_zero. now apply rnd_monotone.
Qed.

Lemma rounded_ema_nonneg alpha x n :
  0 <= alpha -> alpha < 1 -> 0 <= x -> (0 <= n)%Z ->
  0 <= Rounded.ema rnd alpha x n.
Proof.
  intros Ha0 Ha1 Hx Hn. unfold Rounded.ema.
  assert (Hq : 0 <= inject_Z n).
  { change 0 with (inject_Z 0). now rewrite <- Zle_Qle. }
  assert (H1 : 0 <= rnd (alpha * x))
    by (apply rnd_nonneg, Qmult_le_0_compat; assumption).
  assert (H2 : 0 <= rnd (1 - alpha)) by (apply rnd_nonneg; lra).
  assert (H3 : 0 <= rnd (inject_Z n)) by now apply rnd_nonneg.
  assert (H4 : 0 <= rnd (rnd (1 - alpha) * rnd (inject_Z n)))
    by (apply rnd_nonneg, Qmult_le_0_compat; assumption).
  apply rnd_nonneg. lra.
Qed.

Lemma rounded_update_loop_nonneg alpha d todo : forall sc x,
  0 <= alpha -> alpha < 1 ->
  (forall k n, In (k, n) todo -> (0 <= n)%Z) ->
  Py.getitem sc d = Some x -> 0 <= x ->
  exists x',
    Py.getitem (fst (Rounded.update_loop rnd alpha sc todo)) d = Some x' /\
    0 <= x'.
Proof.
  induction todo as [|[k n] todo IH]; intros sc x Ha0 Ha1 Hraw Hx Hx0; simpl.
  - exists x. auto.
  - assert (Hn : (0 <= n)%Z) by (apply (Hraw k); now left).
    assert (Hraw' : forall k' n', In (k', n') todo -> (0 <= n')%Z)
      by (intros k' n' H; apply (Hraw k'); now right).
    destruct (Py.getitem sc k) as [old|] eqn:E; simpl.
    + destruct (String.eqb k d) eqn:Ekd.
      * apply String.eqb_eq in Ekd. subst k.
        rewrite Hx in E. injection E as <-.
        apply IH with (x := Rounded.ema rnd alpha x n); auto.
        -- apply getitem_setitem_same. congruence.
        -- now apply rounded_ema_nonneg.
      * apply String.eqb_neq in Ekd.
        apply IH with (x := x); auto.
        rewrite getitem_setitem_other by congruence. assumption.
    + exists x. auto.
Qed.

Lemma rounded_run_nonneg d ks : forall c x,
  0 <= ALPHA c -> ALPHA c < 1 ->
  (forall raw k n, In (UpdateCounts raw) ks -> In (k, n) raw -> (0 <= n)%Z) ->
  Py.getitem (smooth_counts c) d = Some x -> 0 <= x ->
  exists x',
    Py.getitem (smooth_counts (Rounded.run rnd c ks)) d = Some x' /\ 0 <= x'.
Proof.
  induction ks as [|k ks IH]; intros c x Ha0 Ha1 Hraw Hx Hx0.
  - exists x. auto.
  - assert (Hraw' : forall raw k' n, In (UpdateCounts raw) ks ->
                                     In (k', n) raw -> (0 <= n)%Z)
      by (intros raw k' n H; apply Hraw; now right).
    change (Rounded.run rnd c (k :: ks))
      with (Rounded.run rnd (Rounded.step rnd c k) ks).
    destruct k as [raw|t t']; simpl.
    + rewrite rounded_update_counts_object.
      destruct (rounded_update_loop_nonneg (ALPHA c) d raw
                  (smooth_counts c) x)
        as (x' & Hx' & Hx'0); auto.
      { intros k n. apply Hraw. now left. }
      apply IH with (x := x'); auto.
    + destruct (decide_signal_preserves c t t')
        as (Hsc & _ & _ & _ & Hal & _).
      apply IH with (x := x); auto; try (rewrite Hal; assumption).
      rewrite Hsc. assumption.
Qed.

(** C4 (amended).  Along every sequence of calls whose raw counts are
    non-negative, with [0 <= ALPHA < 1], a direction whose smoothed count
    starts at a non-negative [x0]: (1) keeps a smoothed count that is not
    negative when every float operation of the update rounds its result,
    for any rounding that is monotone and leaves 0 as it is (as rounding
    to nearest is); (2) keeps a smoothed count between 0 and the greatest
    of [x0] and the raw counts observed for it when the update is
    evaluated exactly.  The upper bound is not stated of the rounded
    value, which can exceed it. *)
Theorem smoothing_nonnegative_rounded_bounded_exact c ks d x0 :
  0 <= ALPHA c -> ALPHA c < 1 ->
  (forall raw k n, In (UpdateCounts raw) ks -> In (k, n) raw -> (0 <= n)%Z) ->
  Py.getitem (smooth_counts c) d = Some x0 -> 0 <= x0 ->
  (exists x,
     Py.getitem (smooth_counts (Rounded.run rnd c ks)) d = Some x /\
     0 <= x) /\
  (exists x,
     Py.getitem (smooth_counts (run c ks)) d = Some x /\
     0 <= x /\ x <= observed_max d ks x0).
Proof.
  intros Ha0 Ha1 Hraw Hx Hx0. split.
  - now apply (rounded_run_nonneg d ks c x0).
  - now apply smoothing_bound.
Qed.

End RoundedSmoothing.

Lemma smoothing_nonnegative_rounded_bounded_exact_witness :
  let ks := [UpdateCounts scenario_A_counts; DecideSignal 1000 1000;
             UpdateCounts scenario_A_counts] in
  (forall x y, x <= y -> Rounded.to_grid x <= Rounded.to_grid y) /\
  Rounded.to_grid 0 == 0 /\
  0 <= ALPHA default_controller /\ ALPHA default_controller < 1 /\
  (forall raw k n, In (UpdateCounts raw) ks -> In (k, n) raw -> (0 <= n)%Z) /\
  (exists x,
     Py.getitem
       (smooth_counts (Rounded.run Rounded.to_grid default_controller ks))
       "NORTH" = Some x /\
     0 <= x) /\
  (exists x,
     Py.getitem (smooth_counts (run default_controller ks)) "NORTH" = Some x /\
     0 <= x /\ x <= observed_max "NORTH" ks 0).
Proof.
  intros ks.
  assert (H0 : 0 <= ALPHA default_controller) by (vm_compute; discriminate).
  assert (H1 : ALPHA default_controller < 1) by reflexivity.
  assert (H2 : forall raw k n, In (UpdateCounts raw) ks -> In (k, n) raw ->
                               (0 <= n)%Z).
  { intros raw k n Hin Hkn.
    assert (Hraw : raw = scenario_A_counts).
    { simpl in Hin. destruct Hin as [H|[H|[H|[]]]]; congruence. }
    subst raw. simpl in Hkn.
    destruct Hkn as [H|[H|[H|[H|[]]]]]; injection H as _ <-; lia. }
  split; [exact to_grid_monotone|]. split; [exact to_grid_zero|].
  repeat (split; [assumption|]).
  exact (smoothing_nonnegative_rounded_bounded_exact
           Rounded.to_grid to_grid_monotone to_grid_zero
           default_controller ks "NORTH" 0 H0 H1 H2 eq_refl (Qle_refl 0)).
Defined.
